(** * archive-base: the skip-chain index search of [src/index.ts]

    A shallow embedding of [ArchiveDatabase] and of the interfaces it is
    built on, followed by the properties of the chain navigator
    ([getTipBlock], [getNextBlock]), of the skip search ([indexBlockFor]),
    of the point lookup ([indexItem]) and of the index registry
    ([findIndex]).

    Conventions of the embedding.
    - A JavaScript [number] that is only ever an integer here (levels,
      comparator results, array indices) is a [Z].
    - [undefined]/[null] results are [None].
    - An [async] method is a computation in [Async]: it yields an outcome
      (a value, a thrown error, or exhaustion of the loop fuel) together
      with the list of store operations it awaited, in order.
    - The two stores are the abstract classes of the source; they are
      records of functions here.  A search reads an immutable snapshot, so
      a store is a function of its arguments. *)

From Stdlib Require Import List ZArith String Bool Lia Permutation Sorted.
Import ListNotations.

Local Open Scope string_scope.
Local Open Scope list_scope.
Local Open Scope Z_scope.

Set Implicit Arguments.

(** ** JavaScript primitives used by the source *)

(** Truthiness of a string: only the empty string is falsy. *)
Definition truthy (s : string) : bool :=
  match s with
  | EmptyString => false
  | String _ _ => true
  end.

(** [a.length]. *)
Definition js_length {A : Type} (a : list A) : Z := Z.of_nat (List.length a).

(** [a[i]] for an integer [i]: [undefined] outside [0 .. a.length - 1]. *)
Definition js_index {A : Type} (a : list A) (i : Z) : option A :=
  if i <? 0 then None else nth_error a (Z.to_nat i).

(** A [version] is [string | number]. *)
Definition Version : Type := (string + Z)%type.

(** ** Data shapes *)

Record ArchiveBlockHeader : Type := {
  id : string;
  db : string;
  key : string;
  value : string;
  dataType : string;
  dataSort : string;
  nextBlocks : list string;
  numNextBlocks : Z;
  numNextItems : Z
}.

Record ArchiveTipRecord : Type := {
  tip_id : string;
  tip_db : string;
  tip_key : string;
  tip_value : string;
  blockId : string;
  tip_version : option Version
}.

Record ArchiveGetBlockOptions : Type := {
  forUpdate : option bool;
  reverse : option bool;
  opt_version : option Version
}.

Record ArchiveGetTipOptions : Type := {
  forInsert : option bool;
  forCompact : option bool
}.

(** The object literal [{}] passed to [getTip]. *)
Definition no_tip_options : ArchiveGetTipOptions :=
  {| forInsert := None; forCompact := None |}.

Record ArchiveDatabaseOptions : Type := {
  strictOrdering : option bool;
  dispose : option unit
}.

(** One awaited store operation, with the arguments it received.  The block
    id is an [option]: [getNextBlock] hands [nextBlocks[height]] to the
    store as it is, which is [undefined] when [height] is out of range. *)
Inductive StoreCall : Type :=
| CallGetTip (dbName indexName indexValue : string)
             (options : option ArchiveGetTipOptions)
| CallGetBlock (blockId : option string)
               (options : option ArchiveGetBlockOptions).

(** ** The [Async] monad: outcome and awaited store operations *)

Inductive Outcome (A : Type) : Type :=
| Ok (a : A)
| Thrown (message : string)
| OutOfFuel.

Arguments Ok {A} a.
Arguments Thrown {A} message.
Arguments OutOfFuel {A}.

Definition Async (A : Type) : Type := (Outcome A * list StoreCall)%type.

Definition ret {A : Type} (a : A) : Async A := (Ok a, []).

Definition throw {A : Type} (message : string) : Async A :=
  (Thrown message, []).

Definition bind {A B : Type} (m : Async A) (f : A -> Async B) : Async B :=
  match m with
  | (Ok a, t) => let (r, t') := f a in (r, t ++ t')
  | (Thrown e, t) => (Thrown e, t)
  | (OutOfFuel, t) => (OutOfFuel, t)
  end.

Notation "x <- m ;; k" := (bind m (fun x => k))
  (at level 61, m at next level, right associativity).

(** The value a computation settles with, and the operations it awaited. *)
Definition outcome {A : Type} (m : Async A) : Outcome A := fst m.
Definition calls {A : Type} (m : Async A) : list StoreCall := snd m.

Section Archive.

(** The item type [X] of the database. *)
Variable X : Type.

Record ArchiveBlock : Type := {
  header : ArchiveBlockHeader;
  data : list X;
  version : option Version
}.

(** [abstract class ArchiveBlockDatabase]. *)
Record ArchiveBlockDatabase : Type := {
  getBlock : option string -> option ArchiveGetBlockOptions ->
             option ArchiveBlock;
  getBlockHeader : string -> option ArchiveBlock
}.

(** [abstract class ArchiveTipDatabase]. *)
Record ArchiveTipDatabase : Type := {
  getTip : string -> string -> string -> option ArchiveGetTipOptions ->
           option ArchiveTipRecord
}.

Record ArchiveIndex : Type := {
  name : string;
  getter : X -> list string;
  sorter : X -> X -> Z;
  blockDatabase : ArchiveBlockDatabase;
  tipDatabase : ArchiveTipDatabase
}.

(** [ArchiveIndexBlockOfType<X>]: a block with its index references and the
    optional first/last keys of its next blocks. *)
Record ArchiveIndexBlockOfType : Type := {
  ib_header : ArchiveBlockHeader;
  ib_data : list X;
  ib_version : option Version;
  nextBlocksFirstKey : option (list X);
  nextBlocksLastKey : option (list X);
  index : ArchiveIndex;
  indexValue : string
}.

Record ArchiveDatabase : Type := {
  dbName : string;
  indices : list ArchiveIndex;
  options : option ArchiveDatabaseOptions
}.

(** [await index.tipDatabase.getTip(...)] and
    [await index.blockDatabase.getBlock(...)]. *)
Definition await_getTip (ix : ArchiveIndex) (d k v : string)
    (o : option ArchiveGetTipOptions) : Async (option ArchiveTipRecord) :=
  (Ok (getTip (tipDatabase ix) d k v o), [CallGetTip d k v o]).

Definition await_getBlock (ix : ArchiveIndex) (bid : option string)
    (o : option ArchiveGetBlockOptions) : Async (option ArchiveBlock) :=
  (Ok (getBlock (blockDatabase ix) bid o), [CallGetBlock bid o]).

(** [Array.prototype.sort(cmp)]: a stable sort.  For a comparator that
    is consistent in the sense of the language ([consistent] together
    with [sign_symmetric] below) its result is the one stable ascending
    arrangement, computed here by insertion; for other comparators the
    language leaves the result to the engine, and this function only
    stands for the rearrangement of the items.  The source sorts the fetched array in place and returns
    that same array; only the returned contents are modelled. *)
Fixpoint sort_insert (cmp : X -> X -> Z) (x : X) (l : list X) : list X :=
  match l with
  | [] => [x]
  | y :: l' => if cmp x y <=? 0 then x :: y :: l'
               else y :: sort_insert cmp x l'
  end.

Fixpoint js_sort (cmp : X -> X -> Z) (l : list X) : list X :=
  match l with
  | [] => []
  | x :: l' => sort_insert cmp x (js_sort cmp l')
  end.

(** [this.options?.strictOrdering] as a condition. *)
Definition strict (this : ArchiveDatabase) : bool :=
  match options this with
  | Some o => match strictOrdering o with
              | Some b => b
              | None => false
              end
  | None => false
  end.

(** [if (!this.options?.strictOrdering) data.sort(sorter)]. *)
Definition normalize (this : ArchiveDatabase) (ix : ArchiveIndex)
    (d : list X) : list X :=
  if strict this then d else js_sort (sorter ix) d.

(** The object literal [{ data, header, index, indexValue }] built by the
    navigator: no version and no first/last key cache. *)
Definition index_block (this : ArchiveDatabase) (ix : ArchiveIndex)
    (v : string) (b : ArchiveBlock) : ArchiveIndexBlockOfType :=
  {| ib_header := header b;
     ib_data := normalize this ix (data b);
     ib_version := None;
     nextBlocksFirstKey := None;
     nextBlocksLastKey := None;
     index := ix;
     indexValue := v |}.

(** ** The index registry *)

(** [findIndex]: first index whose name is [indexKey], or a thrown error. *)
Definition findIndex (this : ArchiveDatabase) (indexKey : string)
    : Async ArchiveIndex :=
  match find (fun x => String.eqb (name x) indexKey) (indices this) with
  | Some ix => ret ix
  | None => throw (String.append "unknown index " indexKey)
  end.

(** ** The chain navigator *)

Definition getTipBlock (this : ArchiveDatabase) (ix : ArchiveIndex)
    (v : string) (o : option ArchiveGetBlockOptions)
    : Async (option ArchiveIndexBlockOfType) :=
  tip <- await_getTip ix (dbName this) (name ix) v (Some no_tip_options) ;;
  match tip with
  | None => ret None
  | Some t =>
      if negb (truthy (blockId t)) then ret None
      else
        block <- await_getBlock ix (Some (blockId t)) o ;;
        match block with
        | None => ret None
        | Some b => ret (Some (index_block this ix v b))
        end
  end.

Definition findTipBlock (this : ArchiveDatabase) (indexKey v : string)
    : Async (option ArchiveIndexBlockOfType) :=
  if negb (strict this) then throw "use getTipBlock() w/o strictOrdering"
  else
    ix <- findIndex this indexKey ;;
    getTipBlock this ix v None.

(** [nextBlocks] is a [string[]], so [!block.header.nextBlocks] never
    holds; the guard is the length test. *)
Definition getNextBlock (this : ArchiveDatabase)
    (block : ArchiveIndexBlockOfType) (height : Z)
    (o : option ArchiveGetBlockOptions)
    : Async (option ArchiveIndexBlockOfType) :=
  if js_length (nextBlocks (ib_header block)) <? 1 then ret None
  else
    nextBlock <- await_getBlock (index block)
                   (js_index (nextBlocks (ib_header block)) height) o ;;
    match nextBlock with
    | None => ret None
    | Some nb => ret (Some (index_block this (index block)
                                        (indexValue block) nb))
    end.

(** ** The skip search *)

(** [const options = { reverse: true }]. *)
Definition reverse_options : option ArchiveGetBlockOptions :=
  Some {| forUpdate := None; reverse := Some true; opt_version := None |}.

(** Control points of the two nested loops of [indexBlockFor]: the test of
    the [for] and the test of the [while]. *)
Inductive Pc : Type := AtFor | AtWhile.

(** The loop variables.  [current] always aliases [block.header] and is
    read through [block]. *)
Record Cursor : Type := {
  block : ArchiveIndexBlockOfType;
  i : Z;
  ascending : bool;
  pc : Pc
}.

Inductive Next : Type :=
| Continue (c : Cursor)
| Return (r : option ArchiveIndexBlockOfType).

(** Leaving the [while] (its test fails, or [break]): the [for] update
    [i--, ascending = false], then the [for] test. *)
Definition drop_level (c : Cursor) : Cursor :=
  {| block := block c; i := i c - 1; ascending := false; pc := AtFor |}.

(** Second half of the [while] body, after the comparison let the search
    go on; [nextBlock] is the block fetched for the comparison, if any. *)
Definition proceed (this : ArchiveDatabase) (c : Cursor)
    (nextBlock : option ArchiveIndexBlockOfType) : Async Next :=
  if ascending c && (i c <? js_length (nextBlocks (ib_header (block c))) - 1)
  then ret (Continue {| block := block c; i := i c + 1;
                        ascending := ascending c; pc := AtWhile |})
  else
    blk <- match nextBlock with
           | Some nb => ret (Some nb)
           | None => getNextBlock this (block c) (i c) reverse_options
           end ;;
    match blk with
    | None => ret (Return None)
    | Some b =>
        ret (Continue {| block := b;
                         i := Z.min (i c)
                                (js_length (nextBlocks (ib_header b)) - 1);
                         ascending := ascending c; pc := AtWhile |})
    end.

(** First half of the [while] body: the comparison of the next block's
    first item with [item].  The comparator is specified on items only; a
    cached first key missing at the level is reported as a thrown error. *)
Definition compare_next (this : ArchiveDatabase) (item : X) (c : Cursor)
    : Async Next :=
  match nextBlocksFirstKey (block c) with
  | Some keys =>
      match js_index keys (i c) with
      | None => throw "comparator applied to undefined"
      | Some k =>
          if sorter (index (block c)) k item >=? 0
          then ret (Continue (drop_level c))
          else proceed this c None
      end
  | None =>
      nextBlock <- getNextBlock this (block c) (i c) reverse_options ;;
      match nextBlock with
      | None => ret (Continue (drop_level c))
      | Some nb =>
          match ib_data nb with
          | [] => ret (Continue (drop_level c))
          | first :: _ =>
              if sorter (index (block c)) first item >=? 0
              then ret (Continue (drop_level c))
              else proceed this c (Some nb)
          end
      end
  end.

(** One evaluation of a loop test together with what follows it. *)
Definition step (this : ArchiveDatabase) (item : X) (c : Cursor)
    : Async Next :=
  match pc c with
  | AtFor =>
      if i c >=? 0
      then ret (Continue {| block := block c; i := i c;
                            ascending := ascending c; pc := AtWhile |})
      else ret (Return (Some (block c)))
  | AtWhile =>
      match js_index (nextBlocks (ib_header (block c))) (i c) with
      | Some p => if truthy p then compare_next this item c
                  else ret (Continue (drop_level c))
      | None => ret (Continue (drop_level c))
      end
  end.

(** The loops, run for at most [fuel] tests. *)
Fixpoint run (fuel : nat) (this : ArchiveDatabase) (item : X) (c : Cursor)
    : Async (option ArchiveIndexBlockOfType) :=
  match fuel with
  | O => (OutOfFuel, [])
  | S fuel' =>
      n <- step this item c ;;
      match n with
      | Continue c' => run fuel' this item c'
      | Return r => ret r
      end
  end.

(** The cursor [indexBlockFor] starts from on the tip block. *)
Definition start (b : ArchiveIndexBlockOfType) : Cursor :=
  {| block := b;
     i := js_length (nextBlocks (ib_header b)) - 1;
     ascending := true;
     pc := AtFor |}.

Definition indexBlockFor (fuel : nat) (this : ArchiveDatabase)
    (ix : ArchiveIndex) (v : string) (item : X)
    : Async (option ArchiveIndexBlockOfType) :=
  block <- getTipBlock this ix v reverse_options ;;
  match block with
  | None => ret None
  | Some b => run fuel this item (start b)
  end.

Definition findBlockFor (fuel : nat) (this : ArchiveDatabase)
    (indexKey v : string) (item : X)
    : Async (option ArchiveIndexBlockOfType) :=
  ix <- findIndex this indexKey ;;
  indexBlockFor fuel this ix v item.

(** The cursors the loops go through, for at most [n] further tests. *)
Fixpoint trajectory (n : nat) (this : ArchiveDatabase) (item : X)
    (c : Cursor) : list Cursor :=
  c :: match n with
       | O => []
       | S n' =>
           match outcome (step this item c) with
           | Ok (Continue c') => trajectory n' this item c'
           | _ => []
           end
       end.

(** [c'] is reached from [c] by the loops. *)
Inductive reaches (this : ArchiveDatabase) (item : X)
    : Cursor -> Cursor -> Prop :=
| reaches_refl : forall c, reaches this item c c
| reaches_step : forall c c' c'',
    outcome (step this item c) = Ok (Continue c') ->
    reaches this item c' c'' ->
    reaches this item c c''.

(** ** The point lookup *)

(** Modelled from the spec: [sorted.eq] of the [sorted-array-functions]
    package, which is required but not part of the repository.  A binary
    search over the sorted items with the comparator, giving the position
    of an item that compares equal to [value], and [-1] when it finds
    none. *)
Fixpoint sorted_search (fuel : nat) (cmp : X -> X -> Z) (list : list X)
    (value : X) (btm top : Z) : Z :=
  match fuel with
  | O => -1
  | S fuel' =>
      if top <? btm then -1
      else
        let mid := (top + btm) / 2 in
        match js_index list mid with
        | None => -1
        | Some y =>
            let c := cmp y value in
            if c =? 0 then mid
            else if c >? 0
                 then sorted_search fuel' cmp list value btm (mid - 1)
                 else sorted_search fuel' cmp list value (mid + 1) top
        end
  end.

Definition sorted_eq (list : list X) (value : X) (cmp : X -> X -> Z) : Z :=
  sorted_search (S (List.length list)) cmp list value 0 (js_length list - 1).

Definition indexItem (fuel : nat) (this : ArchiveDatabase)
    (ix : ArchiveIndex) (v : string) (item : X) : Async (option X) :=
  block <- indexBlockFor fuel this ix v item ;;
  match block with
  | None => ret None
  | Some b =>
      let ind := sorted_eq (ib_data b) item (sorter (index b)) in
      ret (if ind <? 0 then None else js_index (ib_data b) ind)
  end.

Definition findItem (fuel : nat) (this : ArchiveDatabase)
    (indexKey v : string) (item : X) : Async (option X) :=
  ix <- findIndex this indexKey ;;
  indexItem fuel this ix v item.

End Archive.

(** ** Chains

    A chain is the sequence of blocks reachable from a tip, listed here by
    block id from the tip onwards.  The source never builds a chain, it
    only walks one; the predicates below say what the storage layer is
    relied on to provide, as decidable checks over the stores of an
    index. *)

Section ChainModel.

Variable X : Type.
Variable this : ArchiveDatabase X.
Variable ix : ArchiveIndex X.

(** The block the search reads under an id (it always reads with
    [reverse_options]). *)
Definition fetch (bid : string) : option (ArchiveBlock X) :=
  getBlock (blockDatabase ix) (Some bid) reverse_options.

(** Level 0 of a block links it to its successor in the chain; the last
    block has no pointers. *)
Definition links_successor (ptrs rest : list string) : bool :=
  match ptrs, rest with
  | [], [] => true
  | p :: _, q :: _ => String.eqb p q
  | _, _ => false
  end.

(** Every listed id names a stored block, every pointer of a block names a
    block further along the chain, and level 0 names the very next one. *)
Fixpoint chain_linked (ids : list string) : bool :=
  match ids with
  | [] => true
  | c :: rest =>
      match fetch c with
      | None => false
      | Some b =>
          truthy c
          && forallb (fun p => existsb (String.eqb p) rest)
               (nextBlocks (header b))
          && links_successor (nextBlocks (header b)) rest
          && chain_linked rest
      end
  end.

(** The tip record of index value [v] names the first block of [ids]. *)
Definition chain_tip (v : string) (ids : list string) : bool :=
  match getTip (tipDatabase ix) (dbName this) (name ix) v
               (Some no_tip_options), ids with
  | Some t, c :: _ => String.eqb (blockId t) c
  | _, _ => false
  end.

(** Every item of [d1] sorts strictly before every item of [d2]. *)
Definition all_before (d1 d2 : list X) : bool :=
  forallb (fun x => forallb (fun y => sorter ix x y <? 0) d2) d1.

Definition data_of (bid : string) : list X :=
  match fetch bid with
  | Some b => data b
  | None => []
  end.

(** Blocks are non-empty and ascend along the pointers: the items of a
    block sort before the items of every block further along. *)
Fixpoint chain_ascending (ids : list string) : bool :=
  match ids with
  | [] => true
  | c :: rest =>
      match data_of c with
      | [] => false
      | _ :: _ => true
      end
      && forallb (fun q => all_before (data_of c) (data_of q)) rest
      && chain_ascending rest
  end.



(** The first item of a block as the navigator returns it. *)
Definition first_item (b : ArchiveBlock X) : option X :=
  hd_error (normalize this ix (data b)).


(** Number of levels of the block under an id. *)
Definition levels (bid : string) : Z :=
  match fetch bid with
  | Some b => js_length (nextBlocks (header b))
  | None => 0
  end.

(** A number of loop tests that suffices on a linked chain. *)
Fixpoint chain_weight (ids : list string) : Z :=
  match ids with
  | [] => 0
  | c :: rest => 3 * levels c + 5 + chain_weight rest
  end.

Definition search_fuel (ids : list string) : nat :=
  Z.to_nat (chain_weight ids).

End ChainModel.

(** ** Concrete stores and chains over integer items *)

Module Scenarios.

Definition mk_header (bid : string) (next : list string)
    : ArchiveBlockHeader :=
  {| id := bid; db := "db"; key := "k"; value := "v";
     dataType := "json"; dataSort := "k";
     nextBlocks := next;
     numNextBlocks := js_length next;
     numNextItems := 0 |}.

Definition mk_block (bid : string) (next : list string) (d : list Z)
    : ArchiveBlock Z :=
  {| header := mk_header bid next; data := d; version := None |}.

Fixpoint lookup (bs : list (ArchiveBlock Z)) (bid : string)
    : option (ArchiveBlock Z) :=
  match bs with
  | [] => None
  | b :: bs' => if String.eqb (id (header b)) bid then Some b
                else lookup bs' bid
  end.

(** A key-value block store: no block under an undefined id. *)
Definition memory_blocks (bs : list (ArchiveBlock Z))
    : ArchiveBlockDatabase Z :=
  {| getBlock := fun bid _ => match bid with
                              | Some s => lookup bs s
                              | None => None
                              end;
     getBlockHeader := lookup bs |}.

(** A block store that answers every request, whatever the id, with the
    same block. *)
Definition constant_blocks (b : ArchiveBlock Z) : ArchiveBlockDatabase Z :=
  {| getBlock := fun _ _ => Some b;
     getBlockHeader := fun _ => Some b |}.

Definition memory_tips (tip : option string) : ArchiveTipDatabase :=
  {| getTip := fun d k v _ =>
       match tip with
       | Some t => Some {| tip_id := "tip-record"; tip_db := d; tip_key := k;
                           tip_value := v; blockId := t;
                           tip_version := None |}
       | None => None
       end |}.

Definition mk_index (bs : list (ArchiveBlock Z)) (tip : option string)
    : ArchiveIndex Z :=
  {| name := "k";
     getter := fun _ => [];
     sorter := Z.sub;
     blockDatabase := memory_blocks bs;
     tipDatabase := memory_tips tip |}.

Definition mk_db (ix : ArchiveIndex Z) (o : option ArchiveDatabaseOptions)
    : ArchiveDatabase Z :=
  {| dbName := "db"; indices := [ix]; options := o |}.

Definition presorted : option ArchiveDatabaseOptions :=
  Some {| strictOrdering := Some true; dispose := None |}.

(** The one-block chain of the spec's first scenario. *)
Definition one_blocks : list (ArchiveBlock Z) :=
  [mk_block "only" [] [10; 20; 30]].
Definition one_ix : ArchiveIndex Z := mk_index one_blocks (Some "only").
Definition one_db : ArchiveDatabase Z := mk_db one_ix None.

(** The two-block chain of the spec's second scenario: the tip holds the
    larger items and points to the older block. *)
Definition two_blocks : list (ArchiveBlock Z) :=
  [mk_block "tip" ["older"] [10; 15]; mk_block "older" [] [1; 5; 9]].
Definition two_ix : ArchiveIndex Z := mk_index two_blocks (Some "tip").
Definition two_db : ArchiveDatabase Z := mk_db two_ix None.
Definition two_ids : list string := ["tip"; "older"].

(** The same two blocks linked the other way round: the tip holds the
    smaller items. *)
Definition asc_blocks : list (ArchiveBlock Z) :=
  [mk_block "a" ["b"] [5; 1; 9]; mk_block "b" [] [15; 10]].
Definition asc_ix : ArchiveIndex Z := mk_index asc_blocks (Some "a").
Definition asc_db : ArchiveDatabase Z := mk_db asc_ix None.
Definition asc_ids : list string := ["a"; "b"].

(** The spec's third scenario: that chain again, over unsorted blocks,
    with the storage declared pre-sorted. *)
Definition asc_strict_db : ArchiveDatabase Z := mk_db asc_ix presorted.

(** An ascending chain with a block that holds no items in the middle. *)
Definition hole_blocks : list (ArchiveBlock Z) :=
  [mk_block "a" ["e"] [1]; mk_block "e" ["b"] []; mk_block "b" [] [5; 6]].
Definition hole_ix : ArchiveIndex Z := mk_index hole_blocks (Some "a").
Definition hole_db : ArchiveDatabase Z := mk_db hole_ix None.
Definition hole_ids : list string := ["a"; "e"; "b"].

(** A chain with uneven level counts: one level on the tip, three on the
    block after it. *)
Definition uneven_blocks : list (ArchiveBlock Z) :=
  [mk_block "T" ["B"] [1];
   mk_block "B" ["C"; "D"; "E"] [2];
   mk_block "C" ["D"] [3];
   mk_block "D" ["E"] [4];
   mk_block "E" [] [5; 6]].
Definition uneven_ix : ArchiveIndex Z := mk_index uneven_blocks (Some "T").
Definition uneven_db : ArchiveDatabase Z := mk_db uneven_ix None.
Definition uneven_ids : list string := ["T"; "B"; "C"; "D"; "E"].

(** An empty chain and a tip record with an empty block id. *)
Definition empty_ix : ArchiveIndex Z := mk_index two_blocks None.
Definition blank_ix : ArchiveIndex Z := mk_index two_blocks (Some "").

(** An index over a store that answers every request. *)
Definition eager_ix : ArchiveIndex Z :=
  {| name := "k";
     getter := fun _ => [];
     sorter := Z.sub;
     blockDatabase := constant_blocks (mk_block "older" [] [1; 5; 9]);
     tipDatabase := memory_tips (Some "tip") |}.

(** A tip block whose level-0 pointer names a block the store does not
    hold and whose level-1 pointer names a block without items. *)
Definition gap_blocks : list (ArchiveBlock Z) :=
  [mk_block "tip" ["gone"; "void"] [10]; mk_block "void" [] []].
Definition gap_ix : ArchiveIndex Z := mk_index gap_blocks (Some "tip").
Definition gap_db : ArchiveDatabase Z := mk_db gap_ix None.

(** The blocks of these chains as the navigator returns them. *)
Definition two_tip : ArchiveIndexBlockOfType Z :=
  index_block two_db two_ix "v" (mk_block "tip" ["older"] [10; 15]).
Definition two_older : ArchiveIndexBlockOfType Z :=
  index_block two_db two_ix "v" (mk_block "older" [] [1; 5; 9]).
Definition asc_a : ArchiveIndexBlockOfType Z :=
  index_block asc_db asc_ix "v" (mk_block "a" ["b"] [5; 1; 9]).
Definition asc_a_stored : ArchiveIndexBlockOfType Z :=
  index_block asc_strict_db asc_ix "v" (mk_block "a" ["b"] [5; 1; 9]).
Definition asc_b : ArchiveIndexBlockOfType Z :=
  index_block asc_db asc_ix "v" (mk_block "b" [] [15; 10]).
Definition hole_a : ArchiveIndexBlockOfType Z :=
  index_block hole_db hole_ix "v" (mk_block "a" ["e"] [1]).
Definition uneven_T : ArchiveIndexBlockOfType Z :=
  index_block uneven_db uneven_ix "v" (mk_block "T" ["B"] [1]).
Definition uneven_B : ArchiveIndexBlockOfType Z :=
  index_block uneven_db uneven_ix "v" (mk_block "B" ["C"; "D"; "E"] [2]).
Definition gap_tip : ArchiveIndexBlockOfType Z :=
  index_block gap_db gap_ix "v" (mk_block "tip" ["gone"; "void"] [10]).
Definition eager_tip : ArchiveIndexBlockOfType Z :=
  index_block (mk_db eager_ix None) eager_ix "v"
    (mk_block "tip" ["older"] [10; 15]).

Definition at_while (b : ArchiveIndexBlockOfType Z) (level : Z)
    (asc : bool) : Cursor Z :=
  {| block := b; i := level; ascending := asc; pc := AtWhile |}.

Definition at_for (b : ArchiveIndexBlockOfType Z) (level : Z)
    (asc : bool) : Cursor Z :=
  {| block := b; i := level; ascending := asc; pc := AtFor |}.

(** What a cursor shows: block id, level, [ascending], control point. *)
Definition shown (c : Cursor Z) : string * Z * bool * Pc :=
  (id (ib_header (block c)), i c, ascending c, pc c).

Definition all_hints : option ArchiveGetBlockOptions :=
  Some {| forUpdate := Some true; reverse := Some true;
          opt_version := Some (inr 7) |}.

(** A tip record that names a block the store does not hold. *)
Definition dangling_ix : ArchiveIndex Z := mk_index two_blocks (Some "lost").
Definition dangling_db : ArchiveDatabase Z := mk_db dangling_ix None.

(** A registry with two indices under the same name, and a third one. *)
Definition other_ix : ArchiveIndex Z :=
  {| name := "other";
     getter := fun _ => [];
     sorter := Z.sub;
     blockDatabase := memory_blocks uneven_blocks;
     tipDatabase := memory_tips (Some "T") |}.
Definition shadow_db : ArchiveDatabase Z :=
  {| dbName := "db"; indices := [other_ix; two_ix; asc_ix];
     options := presorted |}.

(** Two one-item blocks under a comparator that puts every item strictly
    before every item. *)
Definition flat_blocks : list (ArchiveBlock Z) :=
  [mk_block "a" ["b"] [1]; mk_block "b" [] [2]].
Definition flat_ix : ArchiveIndex Z :=
  {| name := "k";
     getter := fun _ => [];
     sorter := fun _ _ => -1;
     blockDatabase := memory_blocks flat_blocks;
     tipDatabase := memory_tips (Some "a") |}.
Definition flat_db : ArchiveDatabase Z := mk_db flat_ix None.
Definition flat_ids : list string := ["a"; "b"].
Definition flat_b : ArchiveIndexBlockOfType Z :=
  index_block flat_db flat_ix "v" (mk_block "b" [] [2]).

(** A block whose only pointer names the block itself. *)
Definition loop_blocks : list (ArchiveBlock Z) :=
  [mk_block "self" ["self"] [1]].
Definition loop_ix : ArchiveIndex Z := mk_index loop_blocks (Some "self").
Definition loop_db : ArchiveDatabase Z := mk_db loop_ix None.

End Scenarios.

(** ** The search on a chain

    Where a cursor stands on a chain, and what the loops maintain. *)

Section SearchModel.

Variable X : Type.
Variable this : ArchiveDatabase X.
Variable ix : ArchiveIndex X.
Variable v : string.
Variable item : X.

(** The comparison of the search against the first item of a block: the
    search goes on into the block, or stops in front of it. *)
Definition goes_on (b : ArchiveBlock X) : Prop :=
  exists x0, first_item this ix b = Some x0 /\ sorter ix x0 item < 0.

Definition stops (b : ArchiveBlock X) : Prop :=
  match first_item this ix b with
  | None => True
  | Some x0 => sorter ix x0 item >= 0
  end.

(** The search has nothing left to enter after the current block: the
    chain ends there, or the search stops in front of the successor. *)
Definition settled (rest : list string) : Prop :=
  match rest with
  | [] => True
  | q :: _ => forall nb, fetch ix q = Some nb -> stops nb
  end.

(** The cursor [s] stands on block [b], stored under [c], with the ids
    [pre] before it and [rest] after it in the chain [ids]. *)
Definition search_inv (ids pre : list string) (c : string)
    (rest : list string) (b : ArchiveBlock X) (s : Cursor X) : Prop :=
  ids = pre ++ c :: rest /\
  fetch ix c = Some b /\
  block s = index_block this ix v b /\
  i s <= js_length (nextBlocks (header b)) - 1 /\
  match pc s with
  | AtWhile => -1 <= i s /\ (0 <= i s \/ rest = [])
  | AtFor => -2 <= i s /\ (i s < 0 -> settled rest)
  end /\
  (pre = [] \/ goes_on b).

(** A bound on the number of loop tests still to come. *)
Definition search_measure (rest : list string) (b : ArchiveBlock X)
    (s : Cursor X) : Z :=
  chain_weight ix rest
  + (if ascending s
     then 3 * (js_length (nextBlocks (header b)) - 1 - i s) + 2
     else 0)
  + 2 * (i s + 2)
  + match pc s with
    | AtFor => 1
    | AtWhile => 0
    end.

End SearchModel.

(** ** Comparators *)

Section ComparatorModel.

Variable X : Type.
Variable cmp : X -> X -> Z.

(** A consistent comparator: any two items compare one way or the other,
    and "not after" is transitive. *)
Definition consistent : Prop :=
  (forall a b, cmp a b <= 0 \/ cmp b a <= 0) /\
  (forall a b c, cmp a b <= 0 -> cmp b c <= 0 -> cmp a c <= 0).

(** "Strictly before" is never mutual. *)
Definition asymmetric : Prop :=
  forall a b, cmp a b < 0 -> cmp b a < 0 -> False.

(** Ascending order under the comparator. *)
Definition ascending_order (l : list X) : Prop :=
  StronglySorted (fun a b => cmp a b <= 0) l.

End ComparatorModel.

(** ** Store access of the search *)

(** A block fetch as the search issues them: under a non-empty id, with
    the options [{ reverse: true }]. *)
Definition reverse_read (c : StoreCall) : bool :=
  match c with
  | CallGetBlock (Some p)
      (Some {| forUpdate := None; reverse := Some true;
               opt_version := None |}) => truthy p
  | _ => false
  end.

Section LookupModel.

Variable X : Type.
Variable cmp : X -> X -> Z.

(** Swapping the arguments of the comparator swaps the sign of a strict
    result and keeps a tie. *)
Definition sign_symmetric : Prop :=
  forall a b, (cmp a b < 0 -> 0 < cmp b a) /\ (cmp a b = 0 -> cmp b a = 0).

End LookupModel.

(** * Properties *)

(** ** The [Async] monad *)

Lemma outcome_bind (A B : Type) (m : Async A) (f : A -> Async B) :
  outcome (bind m f) =
  match outcome m with
  | Ok a => outcome (f a)
  | Thrown e => Thrown e
  | OutOfFuel => OutOfFuel
  end.
Proof.
  destruct m as [[a | e | ] t]; simpl; try reflexivity.
  unfold outcome. destruct (f a); reflexivity.
Qed.

(** ** JavaScript arrays *)

Lemma js_index_some_range (A : Type) (a : list A) (k : Z) (x : A) :
  js_index a k = Some x -> 0 <= k < js_length a.
Proof.
  unfold js_index, js_length. destruct (k <? 0) eqn:E; [discriminate|].
  intros H. apply Z.ltb_ge in E.
  assert (Z.to_nat k < List.length a)%nat
    by (apply nth_error_Some; congruence).
  lia.
Qed.

Lemma js_index_some_in (A : Type) (a : list A) (k : Z) (x : A) :
  js_index a k = Some x -> In x a.
Proof.
  unfold js_index. destruct (k <? 0); [discriminate|].
  apply nth_error_In.
Qed.

Lemma js_index_zero (A : Type) (a : list A) :
  js_index a 0 = hd_error a.
Proof. destruct a; reflexivity. Qed.

(** ** [Array.prototype.sort] *)

Section Sorting.

Variable X : Type.
Variable cmp : X -> X -> Z.

Lemma sort_insert_perm (x : X) (l : list X) :
  Permutation (x :: l) (sort_insert cmp x l).
Proof.
  induction l as [| y l IH]; simpl.
  - apply Permutation_refl.
  - destruct (cmp x y <=? 0).
    + apply Permutation_refl.
    + eapply perm_trans; [apply perm_swap|]. now apply perm_skip.
Qed.

Lemma js_sort_perm (l : list X) : Permutation l (js_sort cmp l).
Proof.
  induction l as [| x l IH]; simpl.
  - constructor.
  - eapply perm_trans; [apply perm_skip, IH | apply sort_insert_perm].
Qed.

Lemma js_sort_in (l : list X) (x : X) : In x (js_sort cmp l) <-> In x l.
Proof.
  split; intros H.
  - eapply Permutation_in; [apply Permutation_sym, js_sort_perm | exact H].
  - eapply Permutation_in; [apply js_sort_perm | exact H].
Qed.

Lemma sort_insert_sorted (x : X) (l : list X) :
  consistent cmp -> ascending_order cmp l ->
  ascending_order cmp (sort_insert cmp x l).
Proof.
  intros [Htot Htrans]. unfold ascending_order.
  induction l as [| y l IH]; simpl; intros Hs.
  - constructor; [constructor | constructor].
  - inversion Hs as [| ? ? Hl Hy]; subst.
    destruct (cmp x y <=? 0) eqn:E.
    + apply Z.leb_le in E. constructor; [exact Hs|].
      constructor; [exact E|].
      eapply Forall_impl; [| exact Hy].
      intros z Hz. now apply Htrans with y.
    + apply Z.leb_gt in E.
      assert (Hyx : cmp y x <= 0) by (destruct (Htot x y); [lia | assumption]).
      constructor; [now apply IH|].
      apply Forall_forall. intros z Hz.
      apply (Permutation_in z (Permutation_sym (sort_insert_perm x l))) in Hz.
      destruct Hz as [<- | Hz]; [exact Hyx|].
      rewrite Forall_forall in Hy. now apply Hy.
Qed.

Lemma js_sort_sorted (l : list X) :
  consistent cmp -> ascending_order cmp (js_sort cmp l).
Proof.
  intros Hc. induction l as [| x l IH]; simpl.
  - constructor.
  - now apply sort_insert_sorted.
Qed.

End Sorting.

(** ** The chain navigator *)

Section Navigator.

Variable X : Type.
Variable this : ArchiveDatabase X.

(** What [getTipBlock] settles with, by cases on the two store answers. *)
Lemma getTipBlock_outcome (ix : ArchiveIndex X) (v : string)
    (o : option ArchiveGetBlockOptions) :
  outcome (getTipBlock this ix v o) =
  Ok match getTip (tipDatabase ix) (dbName this) (name ix) v
                  (Some no_tip_options) with
     | None => None
     | Some t =>
         if truthy (blockId t)
         then option_map (index_block this ix v)
                (getBlock (blockDatabase ix) (Some (blockId t)) o)
         else None
     end.
Proof.
  unfold getTipBlock, await_getTip, await_getBlock, bind, ret, outcome.
  destruct (getTip _ _ _ _ _) as [t |]; simpl; [| reflexivity].
  destruct (truthy (blockId t)); simpl; [| reflexivity].
  destruct (getBlock _ _ _); reflexivity.
Qed.

(** What [getNextBlock] settles with. *)
Lemma getNextBlock_outcome (blk : ArchiveIndexBlockOfType X) (h : Z)
    (o : option ArchiveGetBlockOptions) :
  outcome (getNextBlock this blk h o) =
  Ok (if js_length (nextBlocks (ib_header blk)) <? 1 then None
      else option_map (index_block this (index blk) (indexValue blk))
             (getBlock (blockDatabase (index blk))
                (js_index (nextBlocks (ib_header blk)) h) o)).
Proof.
  unfold getNextBlock, await_getBlock, bind, ret, outcome.
  destruct (_ <? 1); simpl; [reflexivity|].
  destruct (getBlock _ _ _); reflexivity.
Qed.

(** Blocks built by the navigator carry no first-key cache. *)
Lemma getTipBlock_no_cache (ix : ArchiveIndex X) (v : string)
    (o : option ArchiveGetBlockOptions) (b : ArchiveIndexBlockOfType X) :
  outcome (getTipBlock this ix v o) = Ok (Some b) ->
  nextBlocksFirstKey b = None.
Proof.
  rewrite getTipBlock_outcome. intros H. injection H as H.
  destruct (getTip _ _ _ _ _) as [t |]; [| discriminate].
  destruct (truthy _); [| discriminate].
  destruct (getBlock _ _ _); [| discriminate].
  injection H as <-. reflexivity.
Qed.

Lemma getNextBlock_no_cache (blk : ArchiveIndexBlockOfType X) (h : Z)
    (o : option ArchiveGetBlockOptions) (b : ArchiveIndexBlockOfType X) :
  outcome (getNextBlock this blk h o) = Ok (Some b) ->
  nextBlocksFirstKey b = None.
Proof.
  rewrite getNextBlock_outcome. intros H. injection H as H.
  destruct (_ <? 1); [discriminate|].
  destruct (getBlock _ _ _); [| discriminate].
  injection H as <-. reflexivity.
Qed.

(** [this.options?.strictOrdering] holds exactly when the options are
    there and carry [strictOrdering: true]. *)
Lemma strict_true_iff :
  strict this = true <->
  exists c, options this = Some c /\ strictOrdering c = Some true.
Proof.
  unfold strict. split.
  - destruct (options this) as [c |]; [| discriminate].
    destruct (strictOrdering c) as [[|] |] eqn:E; try discriminate.
    intros _. now exists c.
  - intros (c & -> & ->). reflexivity.
Qed.

Lemma strict_false_iff :
  strict this = false <->
  forall c, options this = Some c -> strictOrdering c <> Some true.
Proof.
  split.
  - intros Hs c Hc E.
    assert (strict this = true) by (apply strict_true_iff; now exists c).
    congruence.
  - intros H. destruct (strict this) eqn:Es; [| reflexivity].
    apply strict_true_iff in Es. destruct Es as (c & Hc & E).
    destruct (H c Hc E).
Qed.

(** C4. Unless the configuration declares storage pre-sorted, a block
    returned by [getTipBlock] or [getNextBlock] holds the stored items of
    the fetched block rearranged in ascending order under the index
    comparator, whatever their stored order; with [strictOrdering] set it
    holds them in stored order.  The comparator is a consistent one in
    the sense of the language: [consistent] and [sign_symmetric]. *)
Theorem navigator_ordering :
  (forall (ix : ArchiveIndex X) (v : string)
          (o : option ArchiveGetBlockOptions)
          (b : ArchiveIndexBlockOfType X),
      consistent (sorter ix) ->
      sign_symmetric (sorter ix) ->
      outcome (getTipBlock this ix v o) = Ok (Some b) ->
      exists t stored,
        getTip (tipDatabase ix) (dbName this) (name ix) v
               (Some no_tip_options) = Some t /\
        getBlock (blockDatabase ix) (Some (blockId t)) o = Some stored /\
        ((forall c, options this = Some c -> strictOrdering c <> Some true)
         -> ascending_order (sorter ix) (ib_data b) /\
            Permutation (data stored) (ib_data b)) /\
        ((exists c, options this = Some c /\ strictOrdering c = Some true)
         -> ib_data b = data stored)) /\
  (forall (blk : ArchiveIndexBlockOfType X) (h : Z)
          (o : option ArchiveGetBlockOptions)
          (b : ArchiveIndexBlockOfType X),
      consistent (sorter (index blk)) ->
      sign_symmetric (sorter (index blk)) ->
      outcome (getNextBlock this blk h o) = Ok (Some b) ->
      exists stored,
        getBlock (blockDatabase (index blk))
                 (js_index (nextBlocks (ib_header blk)) h) o = Some stored /\
        ((forall c, options this = Some c -> strictOrdering c <> Some true)
         -> ascending_order (sorter (index blk)) (ib_data b) /\
            Permutation (data stored) (ib_data b)) /\
        ((exists c, options this = Some c /\ strictOrdering c = Some true)
         -> ib_data b = data stored)).
Proof.
  split.
  - intros ix v o b Hc _. rewrite getTipBlock_outcome. intros H.
    injection H as H.
    destruct (getTip _ _ _ _ _) as [t |] eqn:Et; [| discriminate].
    destruct (truthy _); [| discriminate].
    destruct (getBlock _ _ _) as [stored |] eqn:Eb; [| discriminate].
    injection H as <-. exists t, stored.
    split; [reflexivity|]. split; [exact Eb|].
    simpl; unfold normalize. split; intros Hs.
    + apply strict_false_iff in Hs. rewrite Hs.
      split; [now apply js_sort_sorted | apply js_sort_perm].
    + apply strict_true_iff in Hs. rewrite Hs. reflexivity.
  - intros blk h o b Hc _. rewrite getNextBlock_outcome. intros H.
    injection H as H.
    destruct (_ <? 1); [discriminate|].
    destruct (getBlock _ _ _) as [stored |] eqn:Eb; [| discriminate].
    injection H as <-. exists stored.
    split; [reflexivity|].
    simpl; unfold normalize. split; intros Hs.
    + apply strict_false_iff in Hs. rewrite Hs.
      split; [now apply js_sort_sorted | apply js_sort_perm].
    + apply strict_true_iff in Hs. rewrite Hs. reflexivity.
Qed.

(** C6, as the code has it.  [getNextBlock] returns an absent result,
    without failing: with no store access when the next-pointer list is
    empty, and after its one fetch when the block store has no block for
    what the list holds at the requested level. *)
Theorem getNextBlock_absent (blk : ArchiveIndexBlockOfType X) (h : Z)
    (o : option ArchiveGetBlockOptions) :
  (nextBlocks (ib_header blk) = [] ->
     getNextBlock this blk h o = (Ok None, [])) /\
  (nextBlocks (ib_header blk) <> [] ->
     getBlock (blockDatabase (index blk))
              (js_index (nextBlocks (ib_header blk)) h) o = None ->
     getNextBlock this blk h o =
     (Ok None,
      [CallGetBlock (js_index (nextBlocks (ib_header blk)) h) o])).
Proof.
  unfold getNextBlock, await_getBlock, bind, ret. split.
  - intros ->. reflexivity.
  - intros Hne Hnone.
    destruct (nextBlocks (ib_header blk)) as [| p ps] eqn:E; [congruence|].
    replace (js_length (p :: ps) <? 1) with false
      by (symmetry; apply Z.ltb_ge; unfold js_length; simpl List.length; lia).
    rewrite Hnone. reflexivity.
Qed.

(** C8, as the code has it.  [getTipBlock] and [getNextBlock] hand the
    caller's block options to every block-store fetch as they received
    them; the tip-store fetch of [getTipBlock] always carries the empty
    options object. *)
Theorem options_forwarding :
  (forall (ix : ArchiveIndex X) (v : string)
          (o : option ArchiveGetBlockOptions),
      calls (getTipBlock this ix v o) =
      CallGetTip (dbName this) (name ix) v (Some no_tip_options) ::
      match getTip (tipDatabase ix) (dbName this) (name ix) v
                   (Some no_tip_options) with
      | Some t => if truthy (blockId t)
                  then [CallGetBlock (Some (blockId t)) o] else []
      | None => []
      end) /\
  (forall (blk : ArchiveIndexBlockOfType X) (h : Z)
          (o : option ArchiveGetBlockOptions),
      calls (getNextBlock this blk h o) =
      if js_length (nextBlocks (ib_header blk)) <? 1 then []
      else [CallGetBlock (js_index (nextBlocks (ib_header blk)) h) o]).
Proof.
  split.
  - intros ix v o.
    unfold getTipBlock, await_getTip, await_getBlock, bind, ret, calls.
    destruct (getTip _ _ _ _ _) as [t |]; simpl; [| reflexivity].
    destruct (truthy (blockId t)); simpl; [| reflexivity].
    destruct (getBlock _ _ _); reflexivity.
  - intros blk h o.
    unfold getNextBlock, await_getBlock, bind, ret, calls.
    destruct (_ <? 1); simpl; [reflexivity|].
    destruct (getBlock _ _ _); reflexivity.
Qed.

(** C10. When the tip record is absent or its block id is empty,
    [getTipBlock] returns an absent result and the only store operation it
    performs is the tip fetch: no block is fetched. *)
Theorem getTipBlock_empty_chain (ix : ArchiveIndex X) (v : string)
    (o : option ArchiveGetBlockOptions) :
  (getTip (tipDatabase ix) (dbName this) (name ix) v
          (Some no_tip_options) = None \/
   exists t, getTip (tipDatabase ix) (dbName this) (name ix) v
                    (Some no_tip_options) = Some t /\
             blockId t = "") ->
  getTipBlock this ix v o =
  (Ok None, [CallGetTip (dbName this) (name ix) v (Some no_tip_options)]).
Proof.
  unfold getTipBlock, await_getTip, await_getBlock, bind, ret.
  intros [-> | [t [-> Ht]]]; [reflexivity|].
  rewrite Ht. reflexivity.
Qed.

End Navigator.

(** ** The index registry *)

Section Registry.

Variable X : Type.
Variable this : ArchiveDatabase X.

Lemma find_unregistered (indexKey : string) :
  (forall x, In x (indices this) -> name x <> indexKey) ->
  find (fun x => String.eqb (name x) indexKey) (indices this) = None.
Proof.
  intros H. induction (indices this) as [| x l IH]; simpl; [reflexivity|].
  destruct (String.eqb_spec (name x) indexKey) as [E | _].
  - exfalso. apply (H x); [now left | exact E].
  - apply IH. intros y Hy. apply H. now right.
Qed.

(** C7. A configuration error settles the call with its descriptive error
    and an empty list of store operations: [findItem] and [findBlockFor]
    with a name no registered index has, and [findTipBlock] without
    [strictOrdering]. *)
Theorem configuration_errors (indexKey v : string) :
  ((forall x, In x (indices this) -> name x <> indexKey) ->
   forall (fuel : nat) (item : X),
     findItem fuel this indexKey v item =
       (Thrown (String.append "unknown index " indexKey), []) /\
     findBlockFor fuel this indexKey v item =
       (Thrown (String.append "unknown index " indexKey), [])) /\
  (strict this = false ->
   findTipBlock this indexKey v =
     (Thrown "use getTipBlock() w/o strictOrdering", [])).
Proof.
  split.
  - intros H fuel item. unfold findItem, findBlockFor, findIndex.
    rewrite (find_unregistered H). split; reflexivity.
  - intros H. unfold findTipBlock. rewrite H. reflexivity.
Qed.

End Registry.

(** ** One step of the skip search *)

Section Step.

Variable X : Type.
Variable this : ArchiveDatabase X.
Variable item : X.

(** C9. At the test of the [while], with a pointer at the current level
    and no first-key cache: when the fetched next block is absent or holds
    no items, the search leaves the level on the current block and goes
    one level down, which is also what it does when the first item of the
    next block compares greater than or equal to the queried item. *)
Theorem missing_next_block_stops (c : Cursor X) (p : string) :
  pc c = AtWhile ->
  js_index (nextBlocks (ib_header (block c))) (i c) = Some p ->
  truthy p = true ->
  nextBlocksFirstKey (block c) = None ->
  (outcome (getNextBlock this (block c) (i c) reverse_options) = Ok None \/
   (exists nb,
      outcome (getNextBlock this (block c) (i c) reverse_options)
        = Ok (Some nb) /\
      ib_data nb = []) \/
   (exists nb first rest,
      outcome (getNextBlock this (block c) (i c) reverse_options)
        = Ok (Some nb) /\
      ib_data nb = first :: rest /\
      sorter (index (block c)) first item >= 0)) ->
  outcome (step this item c) =
  Ok (Continue {| block := block c; i := i c - 1;
                  ascending := false; pc := AtFor |}).
Proof.
  intros Hpc Hp Ht Hk H.
  unfold step. rewrite Hpc, Hp, Ht. unfold compare_next. rewrite Hk.
  rewrite outcome_bind.
  destruct H as [-> | [[nb [-> Hd]] | [nb [first [rest [-> [Hd Hge]]]]]]].
  - reflexivity.
  - rewrite Hd. reflexivity.
  - rewrite Hd.
    replace (sorter (index (block c)) first item >=? 0) with true
      by (symmetry; apply Z.geb_le; lia).
    reflexivity.
Qed.

(** The level is raised in one way only. *)
Lemma step_raise (c c' : Cursor X) :
  outcome (step this item c) = Ok (Continue c') ->
  i c < i c' ->
  pc c = AtWhile /\ ascending c = true /\ ascending c' = true /\
  block c' = block c /\ i c' = i c + 1 /\
  i c' <= js_length (nextBlocks (ib_header (block c))) - 1.
Proof.
  assert (Hdrop : Ok (Continue (drop_level c)) = Ok (Continue c') ->
                  i c < i c' -> False).
  { intros E. injection E as <-. simpl. lia. }
  assert (Hgo : forall nb,
             outcome (proceed this c nb) = Ok (Continue c') ->
             i c < i c' ->
             ascending c = true /\ ascending c' = true /\
             block c' = block c /\ i c' = i c + 1 /\
             i c' <= js_length (nextBlocks (ib_header (block c))) - 1).
  { intros nb. unfold proceed.
    destruct (ascending c) eqn:Ea; simpl.
    - destruct (i c <? _) eqn:El.
      + intros E. injection E as <-. simpl. apply Z.ltb_lt in El.
        repeat split; try assumption; lia.
      + rewrite outcome_bind.
        destruct nb as [nb |]; simpl.
        * intros E. injection E as <-. simpl. lia.
        * destruct (outcome (getNextBlock _ _ _ _)) as [[b |] | |];
            try discriminate.
          intros E. injection E as <-. simpl. lia.
    - rewrite outcome_bind.
      destruct nb as [nb |]; simpl.
      * intros E. injection E as <-. simpl. lia.
      * destruct (outcome (getNextBlock _ _ _ _)) as [[b |] | |];
          try discriminate.
        intros E. injection E as <-. simpl. lia. }
  unfold step. destruct (pc c) eqn:Epc.
  - destruct (i c >=? 0); [| discriminate].
    intros E. injection E as <-. simpl. lia.
  - destruct (js_index _ _) as [p |]; [| intros E L; destruct (Hdrop E L)].
    destruct (truthy p); [| intros E L; destruct (Hdrop E L)].
    unfold compare_next.
    destruct (nextBlocksFirstKey (block c)) as [keys |].
    + destruct (js_index keys (i c)) as [k |]; [| discriminate].
      destruct (_ >=? 0); [intros E L; destruct (Hdrop E L)|].
      intros E L. split; [reflexivity|]. now apply Hgo with None.
    + rewrite outcome_bind.
      destruct (outcome (getNextBlock _ _ _ _)) as [[nb |] | |];
        try discriminate; [| intros E L; destruct (Hdrop E L)].
      destruct (ib_data nb) as [| first rest];
        [intros E L; destruct (Hdrop E L)|].
      destruct (_ >=? 0); [intros E L; destruct (Hdrop E L)|].
      intros E L. split; [reflexivity|]. now apply Hgo with (Some nb).
Qed.

(** A step never turns [ascending] back on, and without it never raises
    the level. *)
Lemma step_descending (c c' : Cursor X) :
  outcome (step this item c) = Ok (Continue c') ->
  ascending c = false ->
  ascending c' = false /\ i c' <= i c.
Proof.
  intros E Ha.
  destruct (Z_lt_le_dec (i c) (i c')) as [L | L].
  - destruct (step_raise c E L) as (_ & Ht & _). congruence.
  - split; [| exact L].
    revert E. unfold step. destruct (pc c).
    + destruct (i c >=? 0); [| discriminate].
      intros E. injection E as <-. exact Ha.
    + assert (Hgo : forall nb,
                 outcome (proceed this c nb) = Ok (Continue c') ->
                 ascending c' = false).
      { intros nb. unfold proceed. rewrite Ha. simpl.
        rewrite outcome_bind.
        destruct nb as [nb |]; simpl.
        - intros E. injection E as <-. reflexivity.
        - destruct (outcome (getNextBlock _ _ _ _)) as [[b |] | |];
            try discriminate.
          intros E. injection E as <-. reflexivity. }
      assert (Hdrop : Ok (Continue (drop_level c)) = Ok (Continue c') ->
                      ascending c' = false).
      { intros E. injection E as <-. reflexivity. }
      destruct (js_index _ _) as [p |]; [| exact Hdrop].
      destruct (truthy p); [| exact Hdrop].
      unfold compare_next.
      destruct (nextBlocksFirstKey (block c)) as [keys |].
      * destruct (js_index keys (i c)) as [k |]; [| discriminate].
        destruct (_ >=? 0); [exact Hdrop | apply Hgo].
      * rewrite outcome_bind.
        destruct (outcome (getNextBlock _ _ _ _)) as [[nb |] | |];
          try discriminate; [| exact Hdrop].
        destruct (ib_data nb) as [| first rest]; [exact Hdrop|].
        destruct (_ >=? 0); [exact Hdrop | apply Hgo].
Qed.

(** Arriving at the test of the [for] is a level drop. *)
Lemma step_drop (c c' : Cursor X) :
  outcome (step this item c) = Ok (Continue c') ->
  pc c' = AtFor ->
  c' = drop_level c.
Proof.
  assert (Hgo : forall nb,
             outcome (proceed this c nb) = Ok (Continue c') ->
             pc c' = AtFor -> c' = drop_level c).
  { intros nb. unfold proceed.
    destruct (_ && _).
    - intros E. injection E as <-. discriminate.
    - rewrite outcome_bind.
      destruct nb as [nb |]; simpl.
      + intros E. injection E as <-. discriminate.
      + destruct (outcome (getNextBlock _ _ _ _)) as [[b |] | |];
          try discriminate.
        intros E. injection E as <-. discriminate. }
  assert (Hdrop : Ok (Continue (drop_level c)) = Ok (Continue c') ->
                  pc c' = AtFor -> c' = drop_level c).
  { intros E _. now injection E as <-. }
  unfold step. destruct (pc c).
  - destruct (i c >=? 0); [| discriminate].
    intros E. injection E as <-. discriminate.
  - destruct (js_index _ _) as [p |]; [| exact Hdrop].
    destruct (truthy p); [| exact Hdrop].
    unfold compare_next.
    destruct (nextBlocksFirstKey (block c)) as [keys |].
    + destruct (js_index keys (i c)) as [k |]; [| discriminate].
      destruct (_ >=? 0); [exact Hdrop | apply Hgo].
    + rewrite outcome_bind.
      destruct (outcome (getNextBlock _ _ _ _)) as [[nb |] | |];
        try discriminate; [| exact Hdrop].
      destruct (ib_data nb) as [| first rest]; [exact Hdrop|].
      destruct (_ >=? 0); [exact Hdrop | apply Hgo].
Qed.

(** The blocks the search walks are built by the navigator, so the
    first-key cache stays absent all along. *)
Lemma step_no_cache (c c' : Cursor X) :
  outcome (step this item c) = Ok (Continue c') ->
  nextBlocksFirstKey (block c) = None ->
  nextBlocksFirstKey (block c') = None.
Proof.
  intros E Hk.
  destruct (Z_lt_le_dec (i c) (i c')) as [L | L].
  { destruct (step_raise c E L) as (_ & _ & _ & -> & _). exact Hk. }
  revert E. unfold step. destruct (pc c).
  - destruct (i c >=? 0); [| discriminate].
    intros E. injection E as <-. exact Hk.
  - assert (Hdrop : Ok (Continue (drop_level c)) = Ok (Continue c') ->
                    nextBlocksFirstKey (block c') = None).
    { intros E. injection E as <-. exact Hk. }
    destruct (js_index _ _) as [p |]; [| exact Hdrop].
    destruct (truthy p); [| exact Hdrop].
    unfold compare_next. rewrite Hk. rewrite outcome_bind.
    destruct (outcome (getNextBlock _ _ _ _)) as [[nb |] | |] eqn:En;
      try discriminate; [| exact Hdrop].
    destruct (ib_data nb) as [| first rest]; [exact Hdrop|].
    destruct (_ >=? 0); [exact Hdrop|].
    unfold proceed. destruct (_ && _).
    + intros E. injection E as <-. exact Hk.
    + rewrite outcome_bind. cbn [outcome ret fst].
      intros E. injection E as <-.
      exact (getNextBlock_no_cache _ _ _ _ En).
Qed.

Lemma search_no_cache (b : ArchiveIndexBlockOfType X) (c : Cursor X) :
  nextBlocksFirstKey b = None ->
  reaches this item (start b) c ->
  nextBlocksFirstKey (block c) = None.
Proof.
  intros Hk R. remember (start b) as c0 eqn:E0.
  assert (H0 : nextBlocksFirstKey (block c0) = None) by (subst; exact Hk).
  clear E0 Hk. induction R as [c | c c' c'' E R IH]; [exact H0|].
  apply IH. exact (step_no_cache c E H0).
Qed.

(** C3, as the code has it.  The level cursor is raised only while no
    level drop has happened yet: a raise keeps the current block, adds
    exactly one level, and stays within the levels of that block; a level
    drop turns the ascending mode off for good, and from then on the level
    never goes up again.  Raises are not tied to the step that follows an
    advance: they repeat on consecutive comparisons. *)
Theorem level_raise_discipline :
  (forall c c' : Cursor X,
      outcome (step this item c) = Ok (Continue c') ->
      i c < i c' ->
      pc c = AtWhile /\ ascending c = true /\ ascending c' = true /\
      block c' = block c /\ i c' = i c + 1 /\
      i c' <= js_length (nextBlocks (ib_header (block c))) - 1) /\
  (forall c c' : Cursor X,
      outcome (step this item c) = Ok (Continue c') ->
      pc c' = AtFor ->
      block c' = block c /\ i c' = i c - 1 /\ ascending c' = false) /\
  (forall c c' : Cursor X,
      reaches this item c c' ->
      ascending c = false ->
      ascending c' = false /\ i c' <= i c).
Proof.
  split; [exact step_raise|]. split.
  - intros c c' E Hpc. rewrite (step_drop c E Hpc). simpl. auto.
  - intros c c' R. induction R as [c | c c' c'' E R IH]; intros Ha.
    + split; [exact Ha | lia].
    + destruct (step_descending c E Ha) as [Ha' Hi].
      destruct (IH Ha') as [Ha'' Hi'']. split; [exact Ha'' | lia].
Qed.

End Step.

(** ** Chains *)

Section ChainFacts.

Variable X : Type.
Variable this : ArchiveDatabase X.
Variable ix : ArchiveIndex X.

Lemma existsb_eqb_in (p : string) (l : list string) :
  existsb (String.eqb p) l = true -> In p l.
Proof.
  intros H. apply existsb_exists in H. destruct H as [q [Hq E]].
  apply String.eqb_eq in E. now subst.
Qed.

Lemma linked_cons (c : string) (rest : list string) :
  chain_linked ix (c :: rest) = true ->
  exists b,
    fetch ix c = Some b /\
    truthy c = true /\
    (forall p, In p (nextBlocks (header b)) -> In p rest) /\
    links_successor (nextBlocks (header b)) rest = true /\
    chain_linked ix rest = true.
Proof.
  simpl. destruct (fetch ix c) as [b |]; [| discriminate].
  intros H. apply andb_prop in H. destruct H as [H H4].
  apply andb_prop in H. destruct H as [H H3].
  apply andb_prop in H. destruct H as [H1 H2].
  exists b. repeat split; try assumption.
  intros p Hp. rewrite forallb_forall in H2.
  now apply existsb_eqb_in, H2.
Qed.

Lemma linked_app (l1 l2 : list string) :
  chain_linked ix (l1 ++ l2) = true -> chain_linked ix l2 = true.
Proof.
  induction l1 as [| c l1 IH]; [trivial|].
  intros H. change ((c :: l1) ++ l2) with (c :: (l1 ++ l2)) in H.
  apply linked_cons in H. destruct H as (_ & _ & _ & _ & _ & H).
  now apply IH.
Qed.

Lemma linked_in (rest : list string) (p : string) :
  chain_linked ix rest = true -> In p rest ->
  exists mid rest' nb,
    rest = mid ++ p :: rest' /\ fetch ix p = Some nb /\ truthy p = true.
Proof.
  intros Hl Hin. apply in_split in Hin. destruct Hin as [mid [rest' ->]].
  apply linked_app, linked_cons in Hl.
  destruct Hl as (nb & Hf & Ht & _). now exists mid, rest', nb.
Qed.

Lemma linked_last (c : string) (rest : list string) (b : ArchiveBlock X) :
  chain_linked ix (c :: rest) = true -> fetch ix c = Some b ->
  nextBlocks (header b) = [] -> rest = [].
Proof.
  intros Hl Hf Hn. apply linked_cons in Hl.
  destruct Hl as (b' & Hf' & _ & _ & Hs & _).
  assert (b' = b) by congruence. subst b'.
  rewrite Hn in Hs. destruct rest; [reflexivity | discriminate].
Qed.

Lemma linked_level0 (c : string) (rest : list string) (b : ArchiveBlock X)
    (p : string) :
  chain_linked ix (c :: rest) = true -> fetch ix c = Some b ->
  js_index (nextBlocks (header b)) 0 = Some p ->
  exists rest', rest = p :: rest'.
Proof.
  intros Hl Hf Hp. apply linked_cons in Hl.
  destruct Hl as (b' & Hf' & _ & _ & Hs & _).
  assert (b' = b) by congruence. subst b'.
  rewrite js_index_zero in Hp.
  destruct (nextBlocks (header b)) as [| p' ps]; [discriminate|].
  injection Hp as ->. destruct rest as [| q rest']; [discriminate|].
  simpl in Hs. apply String.eqb_eq in Hs. subst. now exists rest'.
Qed.

Lemma levels_fetch (c : string) (b : ArchiveBlock X) :
  fetch ix c = Some b -> levels ix c = js_length (nextBlocks (header b)).
Proof. unfold levels. now intros ->. Qed.

Lemma levels_nonneg (c : string) : 0 <= levels ix c.
Proof.
  unfold levels, js_length. destruct (fetch ix c); lia.
Qed.

Lemma chain_weight_nonneg (l : list string) : 0 <= chain_weight ix l.
Proof.
  induction l as [| c l IH]; cbn [chain_weight]; [lia|].
  pose proof (levels_nonneg c). lia.
Qed.

Lemma chain_weight_app (l1 l2 : list string) :
  chain_weight ix (l1 ++ l2) = chain_weight ix l1 + chain_weight ix l2.
Proof.
  induction l1 as [| c l1 IH]; cbn [chain_weight app]; lia.
Qed.

(** Two ways of cutting the same chain at one block: the cuts coincide or
    one lies strictly after the other. *)
Lemma cut_compare (pre1 pre2 : list string) (a b : string)
    (r1 r2 : list string) :
  pre1 ++ a :: r1 = pre2 ++ b :: r2 ->
  (exists mid, r1 = mid ++ b :: r2 /\ pre2 = pre1 ++ a :: mid) \/
  (pre1 = pre2 /\ a = b /\ r1 = r2) \/
  (exists mid, r2 = mid ++ a :: r1 /\ pre1 = pre2 ++ b :: mid).
Proof.
  revert pre2. induction pre1 as [| x pre1 IH]; intros [| y pre2] E;
    simpl in E.
  - injection E as -> ->. right; left. auto.
  - injection E as -> ->. left. exists pre2. auto.
  - injection E as -> <-. right; right. exists pre1. auto.
  - injection E as -> E. destruct (IH _ E) as [H | [H | H]].
    + destruct H as [mid [-> ->]]. left. exists mid. auto.
    + destruct H as (-> & -> & ->). right; left. auto.
    + destruct H as [mid [-> ->]]. right; right. exists mid. auto.
Qed.

Lemma normalize_in (d : list X) (x : X) :
  In x (normalize this ix d) <-> In x d.
Proof.
  unfold normalize. destruct (strict this); [tauto | apply js_sort_in].
Qed.

Lemma normalize_nil (d : list X) : normalize this ix d = [] -> d = [].
Proof.
  unfold normalize. destruct (strict this); [trivial|].
  intros H. apply Permutation_nil. rewrite <- H.
  apply Permutation_sym, js_sort_perm.
Qed.

Lemma first_item_in (b : ArchiveBlock X) (x0 : X) :
  first_item this ix b = Some x0 -> In x0 (data b).
Proof.
  unfold first_item. intros H. apply normalize_in.
  destruct (normalize this ix (data b)); [discriminate|].
  injection H as ->. now left.
Qed.

Lemma first_item_none (b : ArchiveBlock X) :
  first_item this ix b = None -> data b = [].
Proof.
  unfold first_item. intros H. apply normalize_nil.
  destruct (normalize this ix (data b)); [reflexivity | discriminate].
Qed.

Lemma data_of_fetch (c : string) (b : ArchiveBlock X) :
  fetch ix c = Some b -> data_of ix c = data b.
Proof. unfold data_of. now intros ->. Qed.

Lemma all_before_lt (d1 d2 : list X) (x y : X) :
  all_before ix d1 d2 = true -> In x d1 -> In y d2 -> sorter ix x y < 0.
Proof.
  unfold all_before. intros H Hx Hy.
  rewrite forallb_forall in H. specialize (H x Hx).
  rewrite forallb_forall in H. specialize (H y Hy).
  now apply Z.ltb_lt.
Qed.

Lemma ascending_cons (c : string) (rest : list string) :
  chain_ascending ix (c :: rest) = true ->
  data_of ix c <> [] /\
  (forall q, In q rest -> all_before ix (data_of ix c) (data_of ix q) = true)
  /\ chain_ascending ix rest = true.
Proof.
  simpl. intros H. apply andb_prop in H. destruct H as [H H3].
  apply andb_prop in H. destruct H as [H1 H2].
  split; [| split; [| exact H3]].
  - destruct (data_of ix c); [discriminate | discriminate].
  - intros q Hq. rewrite forallb_forall in H2. now apply H2.
Qed.

Lemma ascending_app (l1 l2 : list string) :
  chain_ascending ix (l1 ++ l2) = true -> chain_ascending ix l2 = true.
Proof.
  induction l1 as [| c l1 IH]; [trivial|].
  intros H. change ((c :: l1) ++ l2) with (c :: (l1 ++ l2)) in H.
  apply ascending_cons in H. destruct H as (_ & _ & H). now apply IH.
Qed.

End ChainFacts.

(** ** The skip search on a chain *)

Lemma js_index_none_range (A : Type) (a : list A) (k : Z) :
  js_index a k = None -> k < 0 \/ js_length a <= k.
Proof.
  unfold js_index, js_length. destruct (k <? 0) eqn:E.
  - intros _. left. now apply Z.ltb_lt.
  - intros H. right. apply Z.ltb_ge in E.
    apply nth_error_None in H. lia.
Qed.

Lemma geb_zero_true (k : Z) : 0 <= k -> (k >=? 0) = true.
Proof. intros H. rewrite Z.geb_leb. now apply Z.leb_le. Qed.

Lemma geb_zero_false (k : Z) : k < 0 -> (k >=? 0) = false.
Proof. intros H. rewrite Z.geb_leb. now apply Z.leb_gt. Qed.

Lemma js_length_nonneg (A : Type) (a : list A) : 0 <= js_length a.
Proof. unfold js_length. lia. Qed.

Lemma js_length_nil (A : Type) (a : list A) : js_length a <= 0 -> a = [].
Proof. destruct a; [reflexivity|]. unfold js_length. simpl List.length. lia. Qed.

Lemma sorted_search_found (X : Type) (cmp : X -> X -> Z) (l : list X)
    (x : X) (fuel : nat) :
  forall btm top,
    sorted_search fuel cmp l x btm top = -1 \/
    exists y, js_index l (sorted_search fuel cmp l x btm top) = Some y /\
              cmp y x = 0.
Proof.
  induction fuel as [| fuel IH]; intros btm top; cbn [sorted_search];
    [now left|].
  destruct (top <? btm); [now left|].
  destruct (js_index l ((top + btm) / 2)) as [y |] eqn:Ey; [| now left].
  destruct (cmp y x =? 0) eqn:E0.
  - right. exists y. apply Z.eqb_eq in E0. auto.
  - destruct (cmp y x >? 0); apply IH.
Qed.

Section ChainSearch.

Variable X : Type.
Variable this : ArchiveDatabase X.
Variable ix : ArchiveIndex X.
Variable v : string.
Variable item : X.
Variable ids : list string.
Hypothesis Hlinked : chain_linked ix ids = true.

Lemma getNextBlock_on_chain (b : ArchiveBlock X) (k : Z) (p : string)
    (nb : ArchiveBlock X) :
  js_index (nextBlocks (header b)) k = Some p ->
  fetch ix p = Some nb ->
  outcome (getNextBlock this (index_block this ix v b) k reverse_options)
  = Ok (Some (index_block this ix v nb)).
Proof.
  intros Hp Hf. rewrite getNextBlock_outcome. simpl.
  apply js_index_some_range in Hp as Hr.
  replace (js_length (nextBlocks (header b)) <? 1) with false
    by (symmetry; apply Z.ltb_ge; lia).
  rewrite Hp. unfold fetch in Hf. rewrite Hf. reflexivity.
Qed.

Lemma step_inv (pre : list string) (c : string) (rest : list string)
    (b : ArchiveBlock X) (s : Cursor X) :
  search_inv this ix v item ids pre c rest b s ->
  (pc s = AtFor /\ i s < 0 /\
   outcome (step this item s) = Ok (Return (Some (block s)))) \/
  (exists s',
     outcome (step this item s) = Ok (Continue s') /\
     exists pre' c' rest' b',
       search_inv this ix v item ids pre' c' rest' b' s' /\
       search_measure ix rest' b' s' < search_measure ix rest b s /\
       ((pre' = pre /\ c' = c /\ rest' = rest /\ b' = b) \/
        (goes_on this ix item b' /\
         exists mid, rest = mid ++ c' :: rest' /\ pre' = pre ++ c :: mid))).
Proof.
  intros (Hids & Hf & Hb & Hi & Hpc & Hpre).
  assert (Hl : chain_linked ix (c :: rest) = true)
    by (apply linked_app with pre; now rewrite <- Hids).
  pose proof (chain_weight_nonneg ix rest) as Hw.
  destruct s as [blk k asc p]. cbn [block i ascending pc] in *. subst blk.
  destruct p.
  - destruct Hpc as [Hlo Hset].
    destruct (Z_lt_le_dec k 0) as [Hneg | Hpos].
    + left. repeat split; try assumption.
      unfold step. cbn [block i ascending pc].
      rewrite geb_zero_false by lia. reflexivity.
    + right. eexists. split.
      * unfold step. cbn [block i ascending pc].
        rewrite geb_zero_true by lia. reflexivity.
      * exists pre, c, rest, b. split; [| split].
        -- unfold search_inv. cbn [block i ascending pc].
           repeat split; auto; lia.
        -- unfold search_measure. cbn [ascending pc i block]. lia.
        -- left. auto.
  - destruct Hpc as [Hlo Hor]. right.
    set (s := {| block := index_block this ix v b; i := k;
                 ascending := asc; pc := AtWhile |}).
    assert (Hdrop : (k - 1 < 0 -> settled this ix item rest) ->
       exists pre' c' rest' b',
         search_inv this ix v item ids pre' c' rest' b' (drop_level s) /\
         search_measure ix rest' b' (drop_level s) < search_measure ix rest b s /\
         ((pre' = pre /\ c' = c /\ rest' = rest /\ b' = b) \/
          (goes_on this ix item b' /\
           exists mid, rest = mid ++ c' :: rest' /\ pre' = pre ++ c :: mid))).
    { intros Hset. exists pre, c, rest, b. split; [| split].
      - unfold search_inv, drop_level, s. cbn [block i ascending pc].
        repeat split; auto; lia.
      - unfold search_measure, drop_level, s. cbn [ascending pc i block].
        destruct asc; lia.
      - left. auto. }
    unfold step. cbn [block i ascending pc s ib_header index_block].
    destruct (js_index (nextBlocks (header b)) k) as [p |] eqn:Ep.
    + apply js_index_some_range in Ep as Hr.
      apply js_index_some_in in Ep as Hin.
      destruct (@linked_cons X ix c rest Hl) as (b0 & Hf0 & _ & Hptr & _ & Hlr).
      assert (b0 = b) by congruence. subst b0.
      destruct (@linked_in X ix rest p Hlr (Hptr p Hin))
        as (mid & rest' & nb & Hrest & Hfp & Htp).
      rewrite Htp. unfold compare_next.
      cbn [block i ascending pc s nextBlocksFirstKey index_block].
      rewrite outcome_bind.
      rewrite (@getNextBlock_on_chain b k p nb Ep Hfp).
      cbn [ib_data index_block index].
      assert (Hlev0 : k - 1 < 0 -> stops this ix item nb ->
                      settled this ix item rest).
      { intros Hk Hst. assert (k = 0) by lia. subst k.
        destruct (@linked_level0 X ix c rest b p Hl Hf Ep) as [rest0 ->].
        unfold settled. intros nb' Hnb'.
        assert (nb' = nb) by congruence. now subst. }
      destruct (normalize this ix (data nb)) as [| x0 t] eqn:En.
      * exists (drop_level s). split; [reflexivity|].
        apply Hdrop. intros Hk. apply Hlev0; [exact Hk|].
        unfold stops, first_item. rewrite En. exact I.
      * destruct (sorter ix x0 item >=? 0) eqn:Eg.
        -- exists (drop_level s). split; [reflexivity|].
           apply Hdrop. intros Hk. apply Hlev0; [exact Hk|].
           unfold stops, first_item. rewrite En. simpl.
           rewrite Z.geb_leb in Eg. apply Z.leb_le in Eg. lia.
        -- assert (Hgo : goes_on this ix item nb).
           { exists x0. unfold first_item. rewrite En.
             split; [reflexivity|].
             rewrite Z.geb_leb in Eg. apply Z.leb_gt in Eg. lia. }
           pose proof (@js_length_nonneg _ (nextBlocks (header nb))) as Hnn.
           unfold proceed. cbn [block i ascending pc s ib_header index_block].
           destruct (asc && (k <? js_length (nextBlocks (header b)) - 1))
             eqn:Er.
           ++ apply andb_prop in Er. destruct Er as [Ea Er].
              apply Z.ltb_lt in Er.
              eexists. split; [reflexivity|].
              exists pre, c, rest, b. split; [| split].
              ** unfold search_inv. cbn [block i ascending pc].
                 repeat split; auto; lia.
              ** unfold search_measure, s. cbn [block i ascending pc].
                 rewrite Ea. lia.
              ** left. auto.
           ++ rewrite outcome_bind. cbn [outcome ret fst].
              eexists. split; [reflexivity|].
              exists (pre ++ c :: mid), p, rest', nb. split; [| split].
              ** unfold search_inv.
                 cbn [block i ascending pc ib_header index_block].
                 split; [| split; [| split; [| split; [| split]]]].
                 --- rewrite Hids, Hrest, <- app_assoc. reflexivity.
                 --- exact Hfp.
                 --- reflexivity.
                 --- lia.
                 --- split; [lia|].
                     destruct (Z_lt_le_dec (js_length (nextBlocks (header nb))) 1)
                       as [Hz | Hz].
                     +++ right.
                         apply (@linked_last X ix p rest' nb);
                           [| exact Hfp | apply js_length_nil; lia].
                         apply linked_app with mid. now rewrite <- Hrest.
                     +++ left. lia.
                 --- right. exact Hgo.
              ** unfold search_measure, s.
                 cbn [block i ascending pc ib_header index_block].
                 rewrite Hrest, chain_weight_app. cbn [chain_weight].
                 rewrite (@levels_fetch X ix p nb Hfp).
                 pose proof (chain_weight_nonneg ix mid).
                 pose proof (chain_weight_nonneg ix rest').
                 destruct asc.
                 --- simpl in Er. apply Z.ltb_ge in Er. lia.
                 --- lia.
              ** right. split; [exact Hgo|]. exists mid. auto.
    + eexists. split; [reflexivity|].
      apply Hdrop. intros Hk.
      destruct Hor as [Hk0 | ->]; [| exact I].
      apply js_index_none_range in Ep. lia.
Qed.

Lemma search_measure_pos (pre : list string) (c : string)
    (rest : list string) (b : ArchiveBlock X) (s : Cursor X) :
  search_inv this ix v item ids pre c rest b s ->
  0 < search_measure ix rest b s.
Proof.
  intros (_ & _ & _ & Hi & Hpc & _).
  pose proof (chain_weight_nonneg ix rest).
  unfold search_measure.
  destruct (pc s); destruct Hpc as [Hlo _]; destruct (ascending s); lia.
Qed.

(** On a linked chain the loops end, on a block of the chain. *)
Lemma run_on_chain (fuel : nat) :
  forall pre c rest b s,
    search_inv this ix v item ids pre c rest b s ->
    search_measure ix rest b s <= Z.of_nat fuel ->
    exists pre' c' rest' b' s',
      reaches this item s s' /\
      search_inv this ix v item ids pre' c' rest' b' s' /\
      pc s' = AtFor /\ i s' < 0 /\
      outcome (run fuel this item s) = Ok (Some (block s')).
Proof.
  induction fuel as [| fuel IH]; intros pre c rest b s Hinv Hm.
  - pose proof (search_measure_pos Hinv). simpl in Hm. lia.
  - destruct (step_inv Hinv)
      as [(Hpc & Hi & E) |
          (s' & E & pre' & c' & rest' & b' & Hinv' & Hlt & _)].
    + exists pre, c, rest, b, s. split; [constructor|].
      split; [exact Hinv|]. split; [exact Hpc|]. split; [exact Hi|].
      cbn [run]. rewrite outcome_bind, E. reflexivity.
    + destruct (IH pre' c' rest' b' s' Hinv')
        as (pre2 & c2 & rest2 & b2 & s2 & Hr & Hinv2 & Hpc & Hi & Hrun);
        [lia|].
      exists pre2, c2, rest2, b2, s2. split; [now apply reaches_step with s'|].
      split; [exact Hinv2|]. split; [exact Hpc|]. split; [exact Hi|].
      cbn [run]. rewrite outcome_bind, E. exact Hrun.
Qed.

(** The tip block of a linked chain, and the cursor the search starts
    from on it. *)
Lemma start_on_chain :
  chain_tip this ix v ids = true ->
  exists c rest b,
    ids = c :: rest /\
    fetch ix c = Some b /\
    outcome (getTipBlock this ix v reverse_options)
      = Ok (Some (index_block this ix v b)) /\
    search_inv this ix v item ids [] c rest b
      (start (index_block this ix v b)) /\
    search_measure ix rest b (start (index_block this ix v b))
      <= chain_weight ix ids.
Proof.
  unfold chain_tip. intros Ht.
  destruct (getTip _ _ _ _ _) as [t |] eqn:Et; [| discriminate].
  destruct ids as [| c rest] eqn:Eids; [discriminate|].
  apply String.eqb_eq in Ht.
  destruct (@linked_cons X ix c rest Hlinked) as (b & Hf & Htr & _ & Hs & _).
  exists c, rest, b.
  pose proof (@js_length_nonneg _ (nextBlocks (header b))) as Hnn.
  split; [reflexivity|]. split; [exact Hf|]. split; [| split].
  - rewrite getTipBlock_outcome, Et, Ht, Htr.
    unfold fetch in Hf. rewrite Hf. reflexivity.
  - unfold search_inv, start.
    cbn [block i ascending pc ib_header index_block].
    split; [reflexivity|]. split; [exact Hf|]. split; [reflexivity|].
    split; [lia|]. split; [| now left].
    split; [lia|]. intros Hneg.
    assert (Hnil : nextBlocks (header b) = [])
      by (apply js_length_nil; lia).
    rewrite Hnil in Hs. destruct rest; [exact I | discriminate].
  - unfold search_measure, start.
    cbn [block i ascending pc ib_header index_block chain_weight].
    rewrite (@levels_fetch X ix c b Hf). lia.
Qed.

(** The search on a linked chain: with enough fuel [indexBlockFor] returns
    a block of the chain, reached from the tip block, which is the tip
    block or one the search went on into, and after which nothing is left
    to enter. *)
Lemma search_on_chain (fuel : nat) :
  chain_tip this ix v ids = true ->
  (search_fuel ix ids <= fuel)%nat ->
  exists c rest b pre' c' rest' b' s',
    ids = c :: rest /\
    fetch ix c = Some b /\
    outcome (getTipBlock this ix v reverse_options)
      = Ok (Some (index_block this ix v b)) /\
    ids = pre' ++ c' :: rest' /\
    fetch ix c' = Some b' /\
    outcome (indexBlockFor fuel this ix v item)
      = Ok (Some (index_block this ix v b')) /\
    (pre' = [] \/ goes_on this ix item b') /\
    settled this ix item rest' /\
    reaches this item (start (index_block this ix v b)) s' /\
    block s' = index_block this ix v b'.
Proof.
  intros Ht Hfuel.
  destruct (start_on_chain Ht) as (c & rest & b & Hids & Hf & Htip & Hinv & Hm).
  destruct (@run_on_chain fuel [] c rest b _ Hinv)
    as (pre' & c' & rest' & b' & s' & Hr & Hinv' & Hpc & Hi & Hrun).
  { unfold search_fuel in Hfuel.
    pose proof (chain_weight_nonneg ix ids). lia. }
  destruct Hinv' as (Hids' & Hf' & Hb' & _ & Hset & Hpre').
  rewrite Hpc in Hset. destruct Hset as [_ Hset].
  exists c, rest, b, pre', c', rest', b', s'.
  split; [exact Hids|]. split; [exact Hf|]. split; [exact Htip|].
  split; [exact Hids'|]. split; [exact Hf'|].
  split; [| split; [exact Hpre'|]; split; [now apply Hset|];
            split; [exact Hr | exact Hb']].
  unfold indexBlockFor. rewrite outcome_bind, Htip, Hrun, Hb'. reflexivity.
Qed.

Lemma stops_not_goes_on (b : ArchiveBlock X) :
  stops this ix item b -> goes_on this ix item b -> False.
Proof.
  unfold stops. intros Hs [x0 [E Hlt]]. rewrite E in Hs. lia.
Qed.




(** C1, as the code has it.  On a linked chain whose blocks ascend along
    the pointers under an asymmetric comparator, for every stored item
    that sits in the tip block or sorts strictly after the first item of
    its own block, [indexBlockFor] returns, with enough fuel, the block
    that stores the item, and the normalized items of that block include
    it. *)
Theorem skip_coverage (pre : list string) (m : string)
    (post : list string) (bm : ArchiveBlock X) (fuel : nat) :
  asymmetric (sorter ix) ->
  chain_tip this ix v ids = true ->
  chain_ascending ix ids = true ->
  ids = pre ++ m :: post ->
  fetch ix m = Some bm ->
  In item (data bm) ->
  (pre = [] \/ goes_on this ix item bm) ->
  (search_fuel ix ids <= fuel)%nat ->
  outcome (indexBlockFor fuel this ix v item)
    = Ok (Some (index_block this ix v bm)) /\
  In item (ib_data (index_block this ix v bm)).
Proof.
  intros Hasym Ht Hasc Hids Hfm Hin Hfirst Hfuel.
  split; [| now apply normalize_in].
  destruct (search_on_chain Ht Hfuel)
    as (c & rest & b & pre' & c' & rest' & b' & s' &
        _ & _ & _ & Hids' & Hf' & Hrun & Hpre' & Hset & _).
  rewrite Hrun.
  assert (Hcut : pre' ++ c' :: rest' = pre ++ m :: post) by congruence.
  destruct (cut_compare _ _ _ _ _ _ Hcut)
    as [[mid [Hrest Hp]] | [(-> & -> & ->) | [mid [Hpost Hp]]]].
  - exfalso.
    assert (Hgo : goes_on this ix item bm).
    { destruct Hfirst as [-> | H]; [| exact H].
      now apply app_cons_not_nil in Hp. }
    destruct mid as [| q mid'].
    + rewrite Hrest in Hset. simpl in Hset.
      exact (stops_not_goes_on (Hset bm Hfm) Hgo).
    + assert (Hsuf : ids = (pre' ++ [c']) ++ q :: (mid' ++ m :: post)).
      { rewrite Hids', Hrest, <- app_assoc. reflexivity. }
      assert (Hlq : chain_linked ix (q :: mid' ++ m :: post) = true)
        by (apply linked_app with (pre' ++ [c']); now rewrite <- Hsuf).
      assert (Haq : chain_ascending ix (q :: mid' ++ m :: post) = true)
        by (apply ascending_app with (pre' ++ [c']); now rewrite <- Hsuf).
      destruct (@linked_cons X ix q _ Hlq) as (bq & Hfq & _).
      destruct (@ascending_cons X ix q _ Haq) as (Hne & Hbef & _).
      rewrite Hrest in Hset. simpl in Hset. specialize (Hset bq Hfq).
      unfold stops in Hset.
      destruct (first_item this ix bq) as [x0 |] eqn:Ex0.
      * assert (sorter ix x0 item < 0).
        { apply all_before_lt with (data_of ix q) (data_of ix m).
          - apply Hbef. apply in_elt.
          - rewrite (@data_of_fetch X ix q bq Hfq).
            exact (@first_item_in X this ix bq x0 Ex0).
          - now rewrite (@data_of_fetch X ix m bm Hfm). }
        lia.
      * apply Hne. rewrite (@data_of_fetch X ix q bq Hfq).
        exact (@first_item_none X this ix bq Ex0).
  - assert (b' = bm) by congruence. now subst.
  - exfalso.
    destruct Hpre' as [-> | [x0 [Ex0 Hlt]]];
      [now apply app_cons_not_nil in Hp|].
    assert (Ham : chain_ascending ix (m :: post) = true)
      by (apply ascending_app with pre; now rewrite <- Hids).
    destruct (@ascending_cons X ix m _ Ham) as (_ & Hbef & _).
    apply (Hasym item x0); [| exact Hlt].
    apply all_before_lt with (data_of ix m) (data_of ix c').
    + apply Hbef. rewrite Hpost. apply in_elt.
    + now rewrite (@data_of_fetch X ix m bm Hfm).
    + rewrite (@data_of_fetch X ix c' b' Hf').
      exact (@first_item_in X this ix b' x0 Ex0).
Qed.



End ChainSearch.

(** ** Fuel *)

Section Fuel.

Variable X : Type.
Variable this : ArchiveDatabase X.
Variable item : X.

(** A result obtained with some fuel is the result with any more fuel. *)
Lemma run_more_fuel (fuel : nat) :
  forall (s : Cursor X) (r : option (ArchiveIndexBlockOfType X)) (extra : nat),
    outcome (run fuel this item s) = Ok r ->
    outcome (run (extra + fuel) this item s) = Ok r.
Proof.
  induction fuel as [| fuel IH]; intros s r extra; [discriminate|].
  rewrite <- plus_n_Sm. cbn [run]. rewrite !outcome_bind.
  destruct (outcome (step this item s)) as [[s' | r'] | |];
    try discriminate; [apply IH | trivial].
Qed.

Lemma indexBlockFor_more_fuel (ix : ArchiveIndex X) (v : string)
    (fuel fuel' : nat) (r : option (ArchiveIndexBlockOfType X)) :
  outcome (indexBlockFor fuel this ix v item) = Ok r ->
  (fuel <= fuel')%nat ->
  outcome (indexBlockFor fuel' this ix v item) = Ok r.
Proof.
  unfold indexBlockFor. rewrite !outcome_bind. intros H Hle.
  destruct (outcome (getTipBlock this ix v reverse_options))
    as [[b |] | |]; try discriminate; [| exact H].
  replace fuel' with ((fuel' - fuel) + fuel)%nat by lia.
  now apply run_more_fuel.
Qed.

End Fuel.

(** ** The properties at work on concrete chains *)

Import Scenarios.

(** The scenarios of the spec, run. *)

Example scenario_single_block :
  outcome (indexItem 5 one_db one_ix "v" 25) = Ok None /\
  (exists b, outcome (indexBlockFor 5 one_db one_ix "v" 25) = Ok (Some b) /\
             id (ib_header b) = "only") /\
  outcome (indexItem 5 one_db one_ix "v" 20) = Ok (Some 20).
Proof.
  split; [reflexivity|]. split; [| reflexivity].
  eexists. split; reflexivity.
Qed.

Example scenario_two_blocks :
  outcome (indexBlockFor 13 two_db two_ix "v" 5) = Ok (Some two_older) /\
  outcome (indexItem 13 two_db two_ix "v" 5) = Ok (Some 5).
Proof. split; reflexivity. Qed.

Example scenario_presorted_unsorted :
  outcome (getTipBlock asc_strict_db asc_ix "v" None)
    = Ok (Some asc_a_stored) /\
  ib_data asc_a_stored = [5; 1; 9] /\
  ib_data asc_a = [1; 5; 9].
Proof. repeat split. Qed.

Example scenario_findTipBlock :
  findTipBlock two_db "k" "v"
    = (Thrown "use getTipBlock() w/o strictOrdering", []) /\
  outcome (findTipBlock asc_strict_db "k" "v") = Ok (Some asc_a_stored).
Proof. split; reflexivity. Qed.

Lemma sub_consistent : consistent Z.sub.
Proof. split; intros; lia. Defined.

Lemma sub_asymmetric : asymmetric Z.sub.
Proof. intros a b; lia. Defined.

Lemma sub_sign_symmetric : sign_symmetric Z.sub.
Proof. intros a b. split; lia. Defined.

(** C1 at work: item 6, stored in the last block of the uneven chain
    after that block's first item. *)
Lemma skip_coverage_witness :
  outcome (indexBlockFor 43 uneven_db uneven_ix "v" 6)
    = Ok (Some (index_block uneven_db uneven_ix "v"
                  (mk_block "E" [] [5; 6]))) /\
  In 6 (ib_data (index_block uneven_db uneven_ix "v"
                   (mk_block "E" [] [5; 6]))).
Proof.
  apply (@skip_coverage Z uneven_db uneven_ix "v" 6 uneven_ids
           eq_refl ["T"; "B"; "C"; "D"] "E" [] (mk_block "E" [] [5; 6]) 43%nat).
  - exact sub_asymmetric.
  - reflexivity.
  - reflexivity.
  - reflexivity.
  - reflexivity.
  - simpl. auto.
  - right. exists 5. split; [reflexivity | simpl; lia].
  - vm_compute. lia.
Defined.

(** C1 as stated fails.  On the two-block chain of the spec's second
    scenario, 10 is stored in the tip block, yet the search goes on into
    the older block, which holds nothing equal to 10.  On the chain linked
    the other way round, 10 is the first item of the second block, and the
    search stops on the tip block in front of it.  On the chain with a
    block without items, 6 is stored in the last block, behind the empty
    one the search stops in front of.  Under a comparator that puts every
    item strictly before every item, two one-item blocks ascend along the
    pointer, 1 is stored in the tip block, and the search goes on into the
    other block. *)
Lemma skip_coverage_counterexample :
  (chain_linked two_ix two_ids = true /\
   chain_tip two_db two_ix "v" two_ids = true /\
   In 10 (data_of two_ix "tip") /\
   forall fuel, (search_fuel two_ix two_ids <= fuel)%nat ->
     outcome (indexBlockFor fuel two_db two_ix "v" 10) = Ok (Some two_older) /\
     ~ exists y, In y (ib_data two_older) /\ sorter two_ix y 10 = 0) /\
  (chain_linked asc_ix asc_ids = true /\
   chain_tip asc_db asc_ix "v" asc_ids = true /\
   chain_ascending asc_ix asc_ids = true /\
   In 10 (data_of asc_ix "b") /\
   forall fuel, (search_fuel asc_ix asc_ids <= fuel)%nat ->
     outcome (indexBlockFor fuel asc_db asc_ix "v" 10) = Ok (Some asc_a) /\
     ~ exists y, In y (ib_data asc_a) /\ sorter asc_ix y 10 = 0) /\
  (chain_linked hole_ix hole_ids = true /\
   chain_tip hole_db hole_ix "v" hole_ids = true /\
   In 6 (data_of hole_ix "b") /\
   forall fuel, (search_fuel hole_ix hole_ids <= fuel)%nat ->
     outcome (indexBlockFor fuel hole_db hole_ix "v" 6) = Ok (Some hole_a) /\
     ~ exists y, In y (ib_data hole_a) /\ sorter hole_ix y 6 = 0) /\
  (chain_linked flat_ix flat_ids = true /\
   chain_tip flat_db flat_ix "v" flat_ids = true /\
   chain_ascending flat_ix flat_ids = true /\
   In 1 (data_of flat_ix "a") /\
   forall fuel, (search_fuel flat_ix flat_ids <= fuel)%nat ->
     outcome (indexBlockFor fuel flat_db flat_ix "v" 1) = Ok (Some flat_b) /\
     ~ exists y, In y (ib_data flat_b) /\ sorter flat_ix y 1 = 0).
Proof.
  split; [| split; [| split]].
  - split; [reflexivity|]. split; [reflexivity|].
    split; [simpl; auto|]. intros fuel Hfuel. split.
    + apply indexBlockFor_more_fuel with (search_fuel two_ix two_ids);
        [reflexivity | exact Hfuel].
    + intros [y [Hy E]]. simpl in Hy, E.
      destruct Hy as [<- | [<- | [<- | []]]]; discriminate.
  - split; [reflexivity|]. split; [reflexivity|]. split; [reflexivity|].
    split; [simpl; auto|]. intros fuel Hfuel. split.
    + apply indexBlockFor_more_fuel with (search_fuel asc_ix asc_ids);
        [reflexivity | exact Hfuel].
    + intros [y [Hy E]]. simpl in Hy, E.
      destruct Hy as [<- | [<- | [<- | []]]]; discriminate.
  - split; [reflexivity|]. split; [reflexivity|].
    split; [simpl; auto|]. intros fuel Hfuel. split.
    + apply indexBlockFor_more_fuel with (search_fuel hole_ix hole_ids);
        [reflexivity | exact Hfuel].
    + intros [y [Hy E]]. simpl in Hy, E.
      destruct Hy as [<- | []]. discriminate.
  - split; [reflexivity|]. split; [reflexivity|]. split; [reflexivity|].
    split; [simpl; auto|]. intros fuel Hfuel. split.
    + apply indexBlockFor_more_fuel with (search_fuel flat_ix flat_ids);
        [reflexivity | exact Hfuel].
    + intros [y [_ E]]. discriminate.
Qed.



(** C3 at work: a raise on the second block of the uneven chain, a level
    drop on the tip block of the chain with a gap, and the descent after
    it. *)
Lemma level_raise_discipline_witness :
  (pc (at_while uneven_B 0 true) = AtWhile /\
   ascending (at_while uneven_B 0 true) = true /\
   ascending (at_while uneven_B 1 true) = true /\
   block (at_while uneven_B 1 true) = block (at_while uneven_B 0 true) /\
   i (at_while uneven_B 1 true) = i (at_while uneven_B 0 true) + 1 /\
   i (at_while uneven_B 1 true)
     <= js_length (nextBlocks (ib_header (block (at_while uneven_B 0 true))))
        - 1) /\
  (block (at_for gap_tip 0 false) = block (at_while gap_tip 1 true) /\
   i (at_for gap_tip 0 false) = i (at_while gap_tip 1 true) - 1 /\
   ascending (at_for gap_tip 0 false) = false) /\
  (ascending (at_for gap_tip (-1) false) = false /\
   i (at_for gap_tip (-1) false) <= i (at_for gap_tip 0 false)).
Proof.
  pose proof (@level_raise_discipline Z uneven_db 10) as (Hraise & _ & _).
  pose proof (@level_raise_discipline Z gap_db 100) as (_ & Hdrop & Hdesc).
  split; [| split].
  - apply (Hraise (at_while uneven_B 0 true) (at_while uneven_B 1 true));
      [reflexivity | simpl; lia].
  - apply (Hdrop (at_while gap_tip 1 true) (at_for gap_tip 0 false));
      reflexivity.
  - apply (Hdesc (at_for gap_tip 0 false) (at_for gap_tip (-1) false));
      [| reflexivity].
    eapply reaches_step; [reflexivity|].
    eapply reaches_step; [reflexivity|].
    apply reaches_refl.
Defined.

(** C3 as stated fails.  On the uneven chain the search for 10 advances
    from the tip block into block B at level [min 0 2 = 0]; the next two
    comparisons both raise the level, to 1 and then to 2: the second raise
    does not follow an advance, and the level ends two above that
    minimum. *)
Lemma level_raise_counterexample :
  outcome (getTipBlock uneven_db uneven_ix "v" reverse_options)
    = Ok (Some uneven_T) /\
  map shown (trajectory 4 uneven_db 10 (start uneven_T)) =
    [("T", 0, true, AtFor); ("T", 0, true, AtWhile);
     ("B", 0, true, AtWhile); ("B", 1, true, AtWhile);
     ("B", 2, true, AtWhile)].
Proof. split; reflexivity. Qed.

(** C4 at work: the tip block of the ascending chain is stored as
    [5; 1; 9], and its successor as [15; 10]; the third application is the
    spec's third scenario. *)
Lemma navigator_ordering_witness :
  (exists t stored,
     getTip (tipDatabase asc_ix) (dbName asc_db) (name asc_ix) "v"
            (Some no_tip_options) = Some t /\
     getBlock (blockDatabase asc_ix) (Some (blockId t)) None = Some stored /\
     ((forall c, options asc_db = Some c -> strictOrdering c <> Some true)
      -> ascending_order (sorter asc_ix) (ib_data asc_a) /\
         Permutation (data stored) (ib_data asc_a)) /\
     ((exists c, options asc_db = Some c /\ strictOrdering c = Some true)
      -> ib_data asc_a = data stored)) /\
  (exists stored,
     getBlock (blockDatabase (index asc_a))
              (js_index (nextBlocks (ib_header asc_a)) 0) None
       = Some stored /\
     ((forall c, options asc_db = Some c -> strictOrdering c <> Some true)
      -> ascending_order (sorter (index asc_a)) (ib_data asc_b) /\
         Permutation (data stored) (ib_data asc_b)) /\
     ((exists c, options asc_db = Some c /\ strictOrdering c = Some true)
      -> ib_data asc_b = data stored)) /\
  (exists t stored,
     getTip (tipDatabase asc_ix) (dbName asc_strict_db) (name asc_ix) "v"
            (Some no_tip_options) = Some t /\
     getBlock (blockDatabase asc_ix) (Some (blockId t)) None = Some stored /\
     ((forall c, options asc_strict_db = Some c ->
                 strictOrdering c <> Some true)
      -> ascending_order (sorter asc_ix) (ib_data asc_a_stored) /\
         Permutation (data stored) (ib_data asc_a_stored)) /\
     ((exists c, options asc_strict_db = Some c /\
                 strictOrdering c = Some true)
      -> ib_data asc_a_stored = data stored)).
Proof.
  pose proof (@navigator_ordering Z asc_db) as [Htip Hnext].
  pose proof (@navigator_ordering Z asc_strict_db) as [Hstored _].
  split; [| split].
  - apply (Htip asc_ix "v" None asc_a);
      [exact sub_consistent | exact sub_sign_symmetric | reflexivity].
  - apply (Hnext asc_a 0 None asc_b);
      [exact sub_consistent | exact sub_sign_symmetric | reflexivity].
  - apply (Hstored asc_ix "v" None asc_a_stored);
      [exact sub_consistent | exact sub_sign_symmetric | reflexivity].
Defined.


(** C6 at work: a block without pointers, and pointers and levels the
    key-value store has nothing for. *)
Lemma getNextBlock_absent_witness :
  getNextBlock two_db two_older 0 None = (Ok None, []) /\
  getNextBlock gap_db gap_tip 0 None
    = (Ok None, [CallGetBlock (Some "gone") None]) /\
  getNextBlock gap_db gap_tip 7 None = (Ok None, [CallGetBlock None None]).
Proof.
  split; [| split].
  - apply (proj1 (@getNextBlock_absent Z two_db two_older 0 None)).
    reflexivity.
  - apply (proj2 (@getNextBlock_absent Z gap_db gap_tip 0 None));
      [discriminate | reflexivity].
  - apply (proj2 (@getNextBlock_absent Z gap_db gap_tip 7 None));
      [discriminate | reflexivity].
Defined.

(** C6 as stated fails.  The block has one pointer and level 3 does not
    exist; [getNextBlock] asks the store for the undefined id all the
    same, and returns the block of a store that answers. *)
Lemma getNextBlock_counterexample :
  js_index (nextBlocks (ib_header eager_tip)) 3 = None /\
  calls (getNextBlock (mk_db eager_ix None) eager_tip 3 None)
    = [CallGetBlock None None] /\
  exists b,
    outcome (getNextBlock (mk_db eager_ix None) eager_tip 3 None)
      = Ok (Some b) /\
    ib_data b = [1; 5; 9].
Proof.
  split; [reflexivity|]. split; [reflexivity|].
  eexists. split; reflexivity.
Qed.

(** C7 at work: no index is registered under ["nope"], and the two-block
    database does not declare its storage pre-sorted. *)
Lemma configuration_errors_witness :
  (forall (fuel : nat) (item : Z),
     findItem fuel two_db "nope" "v" item
       = (Thrown "unknown index nope", []) /\
     findBlockFor fuel two_db "nope" "v" item
       = (Thrown "unknown index nope", [])) /\
  findTipBlock two_db "k" "v"
    = (Thrown "use getTipBlock() w/o strictOrdering", []).
Proof.
  pose proof (@configuration_errors Z two_db "nope" "v") as [Hname _].
  pose proof (@configuration_errors Z two_db "k" "v") as [_ Hstrict].
  split.
  - apply Hname. intros x [<- | []]. discriminate.
  - apply Hstrict. reflexivity.
Defined.

(** C8 as stated fails for the tip store.  A call that carries every block
    hint reaches the block store with them, and the tip store with the
    empty options object; whatever options a call carries, the tip store
    is never handed an insert or a compaction intent. *)
Lemma options_forwarding_counterexample :
  calls (getTipBlock two_db two_ix "v" all_hints)
    = [CallGetTip "db" "k" "v" (Some no_tip_options);
       CallGetBlock (Some "tip") all_hints] /\
  forall (o : option ArchiveGetBlockOptions) (d k v : string)
         (h : ArchiveGetTipOptions),
    In (CallGetTip d k v (Some h)) (calls (getTipBlock two_db two_ix "v" o)) ->
    forInsert h = None /\ forCompact h = None.
Proof.
  split; [reflexivity|].
  intros o d k v h [E | [E | []]]; [| discriminate].
  injection E as _ _ _ <-. split; reflexivity.
Qed.

(** C9 at work: on the chain with a gap, level 0 of the tip block names a
    block the store does not hold and level 1 a block without items; on
    the two-block chain the first item of the next block is not below
    0. *)
Lemma missing_next_block_stops_witness :
  outcome (step gap_db 100 (at_while gap_tip 0 true))
    = Ok (Continue (at_for gap_tip (-1) false)) /\
  outcome (step gap_db 100 (at_while gap_tip 1 true))
    = Ok (Continue (at_for gap_tip 0 false)) /\
  outcome (step two_db 0 (at_while two_tip 0 true))
    = Ok (Continue (at_for two_tip (-1) false)).
Proof.
  split; [| split].
  - apply (@missing_next_block_stops Z gap_db 100
             (at_while gap_tip 0 true) "gone");
      try reflexivity.
    left. reflexivity.
  - apply (@missing_next_block_stops Z gap_db 100
             (at_while gap_tip 1 true) "void");
      try reflexivity.
    right; left. eexists. split; reflexivity.
  - apply (@missing_next_block_stops Z two_db 0
             (at_while two_tip 0 true) "older");
      try reflexivity.
    right; right. exists two_older, 1, [5; 9].
    split; [reflexivity|]. split; [reflexivity|]. simpl. lia.
Defined.

(** C10 at work: an absent tip record, and a tip record with an empty
    block id. *)
Lemma getTipBlock_empty_chain_witness :
  getTipBlock (mk_db empty_ix None) empty_ix "v" all_hints
    = (Ok None, [CallGetTip "db" "k" "v" (Some no_tip_options)]) /\
  getTipBlock (mk_db blank_ix None) blank_ix "v" all_hints
    = (Ok None, [CallGetTip "db" "k" "v" (Some no_tip_options)]).
Proof.
  split.
  - apply (@getTipBlock_empty_chain Z (mk_db empty_ix None) empty_ix "v"
             all_hints).
    left. reflexivity.
  - apply (@getTipBlock_empty_chain Z (mk_db blank_ix None) blank_ix "v"
             all_hints).
    right. eexists. split; reflexivity.
Defined.

(** * Further properties of the source *)

(** ** The [Async] monad, continued *)

Lemma bind_ret (A B : Type) (a : A) (f : A -> Async B) :
  bind (ret a) f = f a.
Proof. unfold bind, ret. destruct (f a). reflexivity. Qed.

Lemma calls_bind (A B : Type) (m : Async A) (f : A -> Async B) :
  calls (bind m f) =
  calls m ++ match outcome m with
             | Ok a => calls (f a)
             | _ => []
             end.
Proof.
  destruct m as [[a | e | ] t]; simpl; try (now rewrite app_nil_r).
  unfold calls. destruct (f a); reflexivity.
Qed.

(** ** Operations by index name *)

Section ByName.

Variable X : Type.
Variable this : ArchiveDatabase X.

Lemma find_first (indexKey : string) (before : list (ArchiveIndex X))
    (ix : ArchiveIndex X) (after : list (ArchiveIndex X)) :
  indices this = before ++ ix :: after ->
  name ix = indexKey ->
  (forall y, In y before -> name y <> indexKey) ->
  find (fun x => String.eqb (name x) indexKey) (indices this) = Some ix.
Proof.
  intros -> Hn. induction before as [| y before IH]; simpl; intros Hb.
  - rewrite Hn, String.eqb_refl. reflexivity.
  - destruct (String.eqb_spec (name y) indexKey) as [E | _].
    + exfalso. apply (Hb y); [now left | exact E].
    + apply IH. intros z Hz. apply Hb. now right.
Qed.

(** Resolution by name takes the first index registered under the name,
    without any store access, and each operation by name is the operation
    on that index: same outcome, same store operations.  An index
    registered later under the same name is never used. *)
Theorem operations_by_name (indexKey v : string)
    (before : list (ArchiveIndex X)) (ix : ArchiveIndex X)
    (after : list (ArchiveIndex X)) :
  indices this = before ++ ix :: after ->
  name ix = indexKey ->
  (forall y, In y before -> name y <> indexKey) ->
  findIndex this indexKey = (Ok ix, []) /\
  (forall (fuel : nat) (item : X),
     findItem fuel this indexKey v item = indexItem fuel this ix v item /\
     findBlockFor fuel this indexKey v item
       = indexBlockFor fuel this ix v item) /\
  (strict this = true ->
     findTipBlock this indexKey v = getTipBlock this ix v None).
Proof.
  intros Hi Hn Hb.
  assert (Hf : findIndex this indexKey = ret ix).
  { unfold findIndex. now rewrite (find_first _ _ _ Hi Hn Hb). }
  split; [exact Hf|]. split.
  - intros fuel item. unfold findItem, findBlockFor.
    rewrite Hf, !bind_ret. split; reflexivity.
  - intros Hs. unfold findTipBlock. rewrite Hs. simpl negb. cbv iota.
    rewrite Hf, bind_ret. reflexivity.
Qed.

End ByName.

Lemma operations_by_name_witness :
  findIndex shadow_db "k" = (Ok two_ix, []) /\
  (forall (fuel : nat) (item : Z),
     findItem fuel shadow_db "k" "v" item
       = indexItem fuel shadow_db two_ix "v" item /\
     findBlockFor fuel shadow_db "k" "v" item
       = indexBlockFor fuel shadow_db two_ix "v" item) /\
  (strict shadow_db = true ->
     findTipBlock shadow_db "k" "v" = getTipBlock shadow_db two_ix "v" None).
Proof.
  apply (@operations_by_name Z shadow_db "k" "v" [other_ix] two_ix [asc_ix]).
  - reflexivity.
  - reflexivity.
  - intros y [<- | []]. discriminate.
Defined.

(** ** Empty and broken chains *)

Section NoChain.

Variable X : Type.
Variable this : ArchiveDatabase X.
Variable ix : ArchiveIndex X.
Variable v : string.

(** With no tip record, or a tip record with an empty block id, the
    search and the point lookup return an absent result after the tip
    fetch alone, whatever the item; with a tip record that names a block
    the store does not hold, they return an absent result after the tip
    fetch and that one block fetch.  No loop test is run: no fuel is
    needed. *)
Theorem search_without_chain (item : X) (fuel : nat) :
  ((getTip (tipDatabase ix) (dbName this) (name ix) v
           (Some no_tip_options) = None \/
    exists t, getTip (tipDatabase ix) (dbName this) (name ix) v
                     (Some no_tip_options) = Some t /\
              blockId t = "") ->
   indexBlockFor fuel this ix v item =
     (Ok None, [CallGetTip (dbName this) (name ix) v (Some no_tip_options)])
   /\
   indexItem fuel this ix v item =
     (Ok None, [CallGetTip (dbName this) (name ix) v (Some no_tip_options)]))
  /\
  (forall t,
     getTip (tipDatabase ix) (dbName this) (name ix) v
            (Some no_tip_options) = Some t ->
     truthy (blockId t) = true ->
     getBlock (blockDatabase ix) (Some (blockId t)) reverse_options = None ->
     indexBlockFor fuel this ix v item =
       (Ok None,
        [CallGetTip (dbName this) (name ix) v (Some no_tip_options);
         CallGetBlock (Some (blockId t)) reverse_options]) /\
     indexItem fuel this ix v item =
       (Ok None,
        [CallGetTip (dbName this) (name ix) v (Some no_tip_options);
         CallGetBlock (Some (blockId t)) reverse_options])).
Proof.
  unfold indexItem, indexBlockFor, getTipBlock, await_getTip, await_getBlock,
    bind, ret.
  split.
  - intros [-> | [t [-> Ht]]]; [split; reflexivity|].
    rewrite Ht. split; reflexivity.
  - intros t -> -> ->. split; reflexivity.
Qed.

End NoChain.

Lemma search_without_chain_witness :
  (indexBlockFor 0 (mk_db empty_ix None) empty_ix "v" 7 =
     (Ok None, [CallGetTip "db" "k" "v" (Some no_tip_options)]) /\
   indexItem 0 (mk_db empty_ix None) empty_ix "v" 7 =
     (Ok None, [CallGetTip "db" "k" "v" (Some no_tip_options)])) /\
  (indexBlockFor 0 (mk_db blank_ix None) blank_ix "v" 7 =
     (Ok None, [CallGetTip "db" "k" "v" (Some no_tip_options)]) /\
   indexItem 0 (mk_db blank_ix None) blank_ix "v" 7 =
     (Ok None, [CallGetTip "db" "k" "v" (Some no_tip_options)])) /\
  (indexBlockFor 0 dangling_db dangling_ix "v" 7 =
     (Ok None, [CallGetTip "db" "k" "v" (Some no_tip_options);
                CallGetBlock (Some "lost") reverse_options]) /\
   indexItem 0 dangling_db dangling_ix "v" 7 =
     (Ok None, [CallGetTip "db" "k" "v" (Some no_tip_options);
                CallGetBlock (Some "lost") reverse_options])).
Proof.
  split; [| split].
  - apply (proj1 (@search_without_chain Z (mk_db empty_ix None) empty_ix
                    "v" 7 0%nat)).
    left. reflexivity.
  - apply (proj1 (@search_without_chain Z (mk_db blank_ix None) blank_ix
                    "v" 7 0%nat)).
    right. eexists. split; reflexivity.
  - apply (proj2 (@search_without_chain Z dangling_db dangling_ix
                    "v" 7 0%nat)
             {| tip_id := "tip-record"; tip_db := "db"; tip_key := "k";
                tip_value := "v"; blockId := "lost"; tip_version := None |});
      reflexivity.
Defined.

(** ** What the navigator hands out *)

Section BlockShape.

Variable X : Type.
Variable this : ArchiveDatabase X.

(** A block handed out by the navigator is the stored block in the chain
    context of the request: the stored header, the stored items rearranged
    (none added, none lost, whatever the comparator), the index and index
    value of the request for [getTipBlock] and of the originating block
    for [getNextBlock]; it carries neither the stored version nor a
    first-key cache. *)
Theorem navigator_block_shape :
  (forall (ix : ArchiveIndex X) (v : string)
          (o : option ArchiveGetBlockOptions)
          (b : ArchiveIndexBlockOfType X),
      outcome (getTipBlock this ix v o) = Ok (Some b) ->
      exists t stored,
        getTip (tipDatabase ix) (dbName this) (name ix) v
               (Some no_tip_options) = Some t /\
        truthy (blockId t) = true /\
        getBlock (blockDatabase ix) (Some (blockId t)) o = Some stored /\
        ib_header b = header stored /\
        Permutation (data stored) (ib_data b) /\
        index b = ix /\ indexValue b = v /\
        ib_version b = None /\ nextBlocksFirstKey b = None) /\
  (forall (blk : ArchiveIndexBlockOfType X) (h : Z)
          (o : option ArchiveGetBlockOptions)
          (b : ArchiveIndexBlockOfType X),
      outcome (getNextBlock this blk h o) = Ok (Some b) ->
      exists stored,
        nextBlocks (ib_header blk) <> [] /\
        getBlock (blockDatabase (index blk))
                 (js_index (nextBlocks (ib_header blk)) h) o = Some stored /\
        ib_header b = header stored /\
        Permutation (data stored) (ib_data b) /\
        index b = index blk /\ indexValue b = indexValue blk /\
        ib_version b = None /\ nextBlocksFirstKey b = None).
Proof.
  assert (Hperm : forall ix d, Permutation d (normalize this ix d)).
  { intros ix d. unfold normalize.
    destruct (strict this); [apply Permutation_refl | apply js_sort_perm]. }
  split.
  - intros ix v o b. rewrite getTipBlock_outcome. intros H.
    injection H as H.
    destruct (getTip _ _ _ _ _) as [t |] eqn:Et; [| discriminate].
    destruct (truthy _) eqn:Etr; [| discriminate].
    destruct (getBlock _ _ _) as [stored |] eqn:Eb; [| discriminate].
    injection H as <-. exists t, stored. simpl.
    repeat (split; [first [reflexivity | assumption | apply Hperm] |]).
    reflexivity.
  - intros blk h o b. rewrite getNextBlock_outcome. intros H.
    injection H as H.
    destruct (_ <? 1) eqn:El; [discriminate|].
    destruct (getBlock _ _ _) as [stored |] eqn:Eb; [| discriminate].
    injection H as <-. exists stored. simpl.
    split.
    { intros En. rewrite En in El. discriminate. }
    repeat (split; [first [reflexivity | assumption | apply Hperm] |]).
    reflexivity.
Qed.

End BlockShape.

Lemma navigator_block_shape_witness :
  (exists t stored,
     getTip (tipDatabase asc_ix) (dbName asc_db) (name asc_ix) "v"
            (Some no_tip_options) = Some t /\
     truthy (blockId t) = true /\
     getBlock (blockDatabase asc_ix) (Some (blockId t)) all_hints
       = Some stored /\
     ib_header asc_a = header stored /\
     Permutation (data stored) (ib_data asc_a) /\
     index asc_a = asc_ix /\ indexValue asc_a = "v" /\
     ib_version asc_a = None /\ nextBlocksFirstKey asc_a = None) /\
  (exists stored,
     nextBlocks (ib_header asc_a) <> [] /\
     getBlock (blockDatabase (index asc_a))
              (js_index (nextBlocks (ib_header asc_a)) 0) None
       = Some stored /\
     ib_header asc_b = header stored /\
     Permutation (data stored) (ib_data asc_b) /\
     index asc_b = index asc_a /\ indexValue asc_b = indexValue asc_a /\
     ib_version asc_b = None /\ nextBlocksFirstKey asc_b = None).
Proof.
  pose proof (@navigator_block_shape Z asc_db) as [Htip Hnext].
  split.
  - apply (Htip asc_ix "v" all_hints asc_a). reflexivity.
  - apply (Hnext asc_a 0 None asc_b). reflexivity.
Defined.

(** ** The search over any store *)

Section AnyStore.

Variable X : Type.
Variable this : ArchiveDatabase X.
Variable item : X.

(** One loop test on a cursor without first-key cache: what it settles
    with and what it fetches. *)
Lemma step_shape (c : Cursor X) :
  nextBlocksFirstKey (block c) = None ->
  exists n t,
    step this item c = (Ok n, t) /\
    ((t = [] /\ pc c = AtFor /\ i c < 0 /\ n = Return (Some (block c))) \/
     (t = [] /\ pc c = AtFor /\ 0 <= i c /\
      n = Continue {| block := block c; i := i c;
                      ascending := ascending c; pc := AtWhile |}) \/
     (t = [] /\ pc c = AtWhile /\ n = Continue (drop_level c)) \/
     (exists p,
        truthy p = true /\
        js_index (nextBlocks (ib_header (block c))) (i c) = Some p /\
        t = [CallGetBlock (Some p) reverse_options] /\
        pc c = AtWhile /\
        (n = Continue (drop_level c) \/
         (ascending c = true /\
          i c < js_length (nextBlocks (ib_header (block c))) - 1 /\
          n = Continue {| block := block c; i := i c + 1;
                          ascending := ascending c; pc := AtWhile |}) \/
         (exists stored,
            getBlock (blockDatabase (index (block c))) (Some p)
                     reverse_options = Some stored /\
            n = Continue
                  {| block := index_block this (index (block c))
                                (indexValue (block c)) stored;
                     i := Z.min (i c)
                            (js_length (nextBlocks (header stored)) - 1);
                     ascending := ascending c; pc := AtWhile |})))).
Proof.
  intros Hk. unfold step. destruct (pc c) eqn:Epc.
  - destruct (Z_lt_le_dec (i c) 0) as [Hneg | Hpos].
    + rewrite geb_zero_false by lia. eexists; eexists.
      split; [reflexivity|]. left. auto.
    + rewrite geb_zero_true by lia. eexists; eexists.
      split; [reflexivity|]. right; left. auto.
  - destruct (js_index (nextBlocks (ib_header (block c))) (i c))
      as [p |] eqn:Ep;
      [| eexists; eexists; split; [reflexivity|]; right; right; left; auto].
    destruct (truthy p) eqn:Etp;
      [| eexists; eexists; split; [reflexivity|]; right; right; left; auto].
    apply js_index_some_range in Ep as Hr.
    unfold compare_next. rewrite Hk.
    unfold getNextBlock, await_getBlock.
    replace (js_length (nextBlocks (ib_header (block c))) <? 1) with false
      by (symmetry; apply Z.ltb_ge; lia).
    rewrite Ep. unfold bind at 2. unfold ret at 1 2.
    destruct (getBlock (blockDatabase (index (block c))) (Some p)
                       reverse_options) as [stored |] eqn:Eb.
    + unfold bind at 1. cbn [ib_data index_block].
      destruct (normalize this (index (block c)) (data stored))
        as [| first rest].
      * eexists; eexists. split; [reflexivity|].
        right; right; right. exists p. repeat split; auto.
      * destruct (sorter (index (block c)) first item >=? 0).
        -- eexists; eexists. split; [reflexivity|].
           right; right; right. exists p. repeat split; auto.
        -- unfold proceed.
           destruct (ascending c && _) eqn:Er.
           ++ apply andb_prop in Er. destruct Er as [Ea Er].
              apply Z.ltb_lt in Er.
              eexists; eexists. split; [reflexivity|].
              right; right; right. exists p.
              split; [exact Etp|]. split; [reflexivity|].
              split; [reflexivity|]. split; [reflexivity|].
              right; left. auto.
           ++ rewrite bind_ret. cbn [ib_header index_block].
              eexists; eexists. split; [reflexivity|].
              right; right; right. exists p.
              split; [exact Etp|]. split; [reflexivity|].
              split; [reflexivity|]. split; [reflexivity|].
              right; right. exists stored. auto.
    + unfold bind. eexists; eexists. split; [reflexivity|].
      right; right; right. exists p. repeat split; auto.
Qed.

End AnyStore.

Section AnySearch.

Variable X : Type.
Variable this : ArchiveDatabase X.
Variable ix : ArchiveIndex X.
Variable v : string.
Variable item : X.

(** What the loops keep true of their cursor, one test at a time. *)
Lemma step_keeps_view (c c' : Cursor X) :
  (exists p stored,
     truthy p = true /\
     getBlock (blockDatabase ix) (Some p) reverse_options = Some stored /\
     block c = index_block this ix v stored) ->
  -2 <= i c <= js_length (nextBlocks (ib_header (block c))) - 1 ->
  (pc c = AtWhile -> -1 <= i c) ->
  outcome (step this item c) = Ok (Continue c') ->
  (exists p stored,
     truthy p = true /\
     getBlock (blockDatabase ix) (Some p) reverse_options = Some stored /\
     block c' = index_block this ix v stored) /\
  -2 <= i c' <= js_length (nextBlocks (ib_header (block c'))) - 1 /\
  (pc c' = AtWhile -> -1 <= i c').
Proof.
  intros (p0 & st0 & Ht0 & Hg0 & Hb0) Hi Hw E.
  assert (Hk : nextBlocksFirstKey (block c) = None) by now rewrite Hb0.
  destruct (step_shape this item c Hk) as (n & t & Hs & Hcases).
  rewrite Hs in E. injection E as ->.
  destruct Hcases
    as [(_ & _ & _ & Hn) |
        [(_ & _ & Hpos & Hn) |
         [(_ & Hpc & Hn) |
          (p & Htp & Hp & _ & Hpc & Hn)]]].
  - discriminate.
  - injection Hn as ->. cbn [block i pc].
    split; [now exists p0, st0|]. split; [lia | intros _; lia].
  - injection Hn as ->. unfold drop_level. cbn [block i pc].
    specialize (Hw Hpc).
    split; [now exists p0, st0|]. split; [lia | discriminate].
  - apply js_index_some_range in Hp as Hr. specialize (Hw Hpc).
    destruct Hn as [Hn | [(_ & Hlt & Hn) | (stored & Hg & Hn)]];
      injection Hn as ->.
    + unfold drop_level. cbn [block i pc].
      split; [now exists p0, st0|]. split; [lia | discriminate].
    + cbn [block i pc].
      split; [now exists p0, st0|]. split; [lia | intros _; lia].
    + cbn [block i pc ib_header index_block].
      pose proof (@js_length_nonneg _ (nextBlocks (header stored))).
      split; [| split; [lia | intros _; lia]].
      exists p, stored. rewrite Hb0 in Hg |- *. cbn [index indexValue index_block] in *.
      auto.
Qed.

(** Along every search of [indexBlockFor], on any store: the cursor stands
    on the navigator's view, in the chain context of the query, of a block
    the store holds under a non-empty id; the level stays between -2 and
    the highest level of that block, and is at least -1 at the test of the
    [while]. *)
Theorem search_cursor_invariant (b : ArchiveIndexBlockOfType X)
    (c : Cursor X) :
  outcome (getTipBlock this ix v reverse_options) = Ok (Some b) ->
  reaches this item (start b) c ->
  (exists p stored,
     truthy p = true /\
     getBlock (blockDatabase ix) (Some p) reverse_options = Some stored /\
     block c = index_block this ix v stored) /\
  -2 <= i c <= js_length (nextBlocks (ib_header (block c))) - 1 /\
  (pc c = AtWhile -> -1 <= i c).
Proof.
  intros Ht R.
  assert (H0 : (exists p stored,
                  truthy p = true /\
                  getBlock (blockDatabase ix) (Some p) reverse_options
                    = Some stored /\
                  block (start b) = index_block this ix v stored) /\
               -2 <= i (start b)
                  <= js_length (nextBlocks (ib_header (block (start b)))) - 1 /\
               (pc (start b) = AtWhile -> -1 <= i (start b))).
  { rewrite getTipBlock_outcome in Ht. injection Ht as Ht.
    destruct (getTip _ _ _ _ _) as [t |]; [| discriminate].
    destruct (truthy (blockId t)) eqn:Etr; [| discriminate].
    destruct (getBlock _ _ _) as [stored |] eqn:Eg; [| discriminate].
    injection Ht as <-. unfold start. cbn [block i pc ib_header index_block].
    pose proof (@js_length_nonneg _ (nextBlocks (header stored))).
    split; [now exists (blockId t), stored|].
    split; [lia | discriminate]. }
  clear Ht. induction R as [c | c c1 c2 E R IH]; [exact H0|].
  apply IH. destruct H0 as (Hv & Hi & Hw).
  exact (step_keeps_view c Hv Hi Hw E).
Qed.

Lemma run_settles (fuel : nat) :
  forall c : Cursor X,
    (exists p stored,
       truthy p = true /\
       getBlock (blockDatabase ix) (Some p) reverse_options = Some stored /\
       block c = index_block this ix v stored) ->
    outcome (run fuel this item c) = OutOfFuel \/
    exists p stored,
      truthy p = true /\
      getBlock (blockDatabase ix) (Some p) reverse_options = Some stored /\
      outcome (run fuel this item c) = Ok (Some (index_block this ix v stored)).
Proof.
  induction fuel as [| fuel IH]; intros c Hv; [now left|].
  assert (Hk : nextBlocksFirstKey (block c) = None).
  { destruct Hv as (p0 & st0 & _ & _ & ->). reflexivity. }
  destruct (step_shape this item c Hk) as (n & t & Hs & Hcases).
  cbn [run]. rewrite outcome_bind. unfold outcome at 1 3. rewrite Hs.
  cbn [fst].
  assert (Hsame : forall c', block c' = block c ->
            outcome (run fuel this item c') = OutOfFuel \/
            exists p stored,
              truthy p = true /\
              getBlock (blockDatabase ix) (Some p) reverse_options
                = Some stored /\
              outcome (run fuel this item c')
                = Ok (Some (index_block this ix v stored))).
  { intros c' Hb. apply IH. now rewrite Hb. }
  destruct Hcases
    as [(_ & _ & _ & ->) |
        [(_ & _ & _ & ->) |
         [(_ & _ & ->) |
          (p & Htp & _ & _ & _ & Hn)]]].
  - right. destruct Hv as (p0 & st0 & Ht0 & Hg0 & ->).
    now exists p0, st0.
  - now apply Hsame.
  - now apply Hsame.
  - destruct Hn as [-> | [(_ & _ & ->) | (stored & Hg & ->)]].
    + now apply Hsame.
    + now apply Hsame.
    + apply IH. cbn [block]. exists p, stored.
      destruct Hv as (p0 & st0 & _ & _ & Hb0).
      rewrite Hb0 in Hg |- *. cbn [index indexValue index_block] in *. auto.
Qed.

(** [indexBlockFor] returns an absent result only when [getTipBlock]
    does: whenever the search settles with a value after the tip block
    was read, that value is a block, the navigator's view, in the chain
    context of the query, of a block the store holds under a non-empty
    id.  The [return null] inside its loops is never taken. *)
Theorem search_settles_with_block (fuel : nat)
    (r : option (ArchiveIndexBlockOfType X)) :
  outcome (indexBlockFor fuel this ix v item) = Ok r ->
  match r with
  | None => outcome (getTipBlock this ix v reverse_options) = Ok None
  | Some b =>
      exists p stored,
        truthy p = true /\
        getBlock (blockDatabase ix) (Some p) reverse_options = Some stored /\
        b = index_block this ix v stored
  end.
Proof.
  unfold indexBlockFor. rewrite outcome_bind.
  destruct (outcome (getTipBlock this ix v reverse_options))
    as [[tipb |] | |] eqn:Ht; try discriminate.
  - intros H.
    assert (Hv : exists p stored,
               truthy p = true /\
               getBlock (blockDatabase ix) (Some p) reverse_options
                 = Some stored /\
               block (start tipb) = index_block this ix v stored).
    { rewrite getTipBlock_outcome in Ht. injection Ht as Ht.
      destruct (getTip _ _ _ _ _) as [t |]; [| discriminate].
      destruct (truthy (blockId t)) eqn:Etr; [| discriminate].
      destruct (getBlock _ _ _) as [stored |] eqn:Eg; [| discriminate].
      injection Ht as <-. now exists (blockId t), stored. }
    destruct (run_settles fuel (start tipb) Hv)
      as [Ho | (p & stored & Htp & Hg & Hr)].
    + rewrite Ho in H. discriminate.
    + rewrite Hr in H. injection H as <-. now exists p, stored.
  - intros H. injection H as <-. reflexivity.
Qed.

End AnySearch.

(** ** Store operations of the search *)

Section SearchCalls.

Variable X : Type.
Variable this : ArchiveDatabase X.
Variable item : X.

Lemma run_calls (fuel : nat) :
  forall c : Cursor X,
    nextBlocksFirstKey (block c) = None ->
    forallb reverse_read (calls (run fuel this item c)) = true /\
    (List.length (calls (run fuel this item c)) <= fuel)%nat.
Proof.
  induction fuel as [| fuel IH]; intros c Hk;
    [split; [reflexivity | simpl; lia]|].
  destruct (step_shape this item c Hk) as (n & t & Hs & Hcases).
  assert (Ht : forallb reverse_read t = true /\ (List.length t <= 1)%nat).
  { destruct Hcases
      as [(-> & _) | [(-> & _) | [(-> & _) | (p & Htp & _ & -> & _)]]];
      try (split; [reflexivity | simpl; lia]).
    split; [simpl; now rewrite Htp | simpl; lia]. }
  assert (Hn : forallb reverse_read
                 (calls match n with
                        | Continue c' => run fuel this item c'
                        | Return r => ret r
                        end) = true /\
               (List.length
                  (calls match n with
                         | Continue c' => run fuel this item c'
                         | Return r => ret r
                         end) <= fuel)%nat).
  { assert (Hsame : forall c', block c' = block c ->
              forallb reverse_read (calls (run fuel this item c')) = true /\
              (List.length (calls (run fuel this item c')) <= fuel)%nat).
    { intros c' Hb. apply IH. now rewrite Hb. }
    destruct Hcases
      as [(_ & _ & _ & ->) |
          [(_ & _ & _ & ->) |
           [(_ & _ & ->) |
            (p & _ & _ & _ & _ & Hn)]]].
    - split; [reflexivity | simpl; lia].
    - now apply Hsame.
    - now apply Hsame.
    - destruct Hn as [-> | [(_ & _ & ->) | (stored & _ & ->)]].
      + now apply Hsame.
      + now apply Hsame.
      + now apply IH. }
  cbn [run]. rewrite Hs. cbn [bind].
  destruct (match n with
            | Continue c' => run fuel this item c'
            | Return r => ret r
            end) as [o t'].
  unfold calls in *. cbn [snd] in *.
  destruct Ht as [Ht1 Ht2]. destruct Hn as [Hn1 Hn2].
  split.
  - rewrite forallb_app, Ht1, Hn1. reflexivity.
  - rewrite length_app. lia.
Qed.

Lemma getTipBlock_calls (ix : ArchiveIndex X) (v : string)
    (o : option ArchiveGetBlockOptions) :
  calls (getTipBlock this ix v o) =
  CallGetTip (dbName this) (name ix) v (Some no_tip_options) ::
  match getTip (tipDatabase ix) (dbName this) (name ix) v
               (Some no_tip_options) with
  | Some t => if truthy (blockId t)
              then [CallGetBlock (Some (blockId t)) o] else []
  | None => []
  end.
Proof.
  unfold getTipBlock, await_getTip, await_getBlock, bind, ret, calls.
  destruct (getTip _ _ _ _ _) as [t |]; simpl; [| reflexivity].
  destruct (truthy (blockId t)); simpl; [| reflexivity].
  destruct (getBlock _ _ _); reflexivity.
Qed.

Lemma indexBlockFor_calls (ix : ArchiveIndex X) (v : string) (fuel : nat) :
  exists rest,
    calls (indexBlockFor fuel this ix v item) =
      CallGetTip (dbName this) (name ix) v (Some no_tip_options) :: rest /\
    forallb reverse_read rest = true /\
    (List.length rest <= S fuel)%nat.
Proof.
  unfold indexBlockFor. rewrite calls_bind, getTipBlock_calls.
  rewrite getTipBlock_outcome.
  destruct (getTip _ _ _ _ _) as [t |];
    [| exists []; repeat split; simpl; lia].
  destruct (truthy (blockId t)) eqn:Etr;
    [| exists []; repeat split; simpl; lia].
  destruct (getBlock _ _ _) as [stored |]; cbn [option_map].
  - destruct (run_calls fuel (start (index_block this ix v stored)) eq_refl)
      as [H1 H2].
    eexists. split; [reflexivity|]. split.
    + cbn [app forallb reverse_read reverse_options]. rewrite Etr. exact H1.
    + cbn [app List.length]. lia.
  - eexists. split; [reflexivity|]. split.
    + cbn [app forallb reverse_read reverse_options calls ret snd].
      rewrite Etr. reflexivity.
    + simpl. lia.
Qed.

(** Whatever the store, the item and the fuel, [indexBlockFor] begins
    with the tip fetch, under the empty options object, and after it only
    fetches blocks, each under a non-empty id and with the options
    [{ reverse: true }]: never with a write intent or a version pin, never
    under an undefined id, and at most one block per loop test after the
    tip block. *)
Theorem search_store_access (ix : ArchiveIndex X) (v : string)
    (fuel : nat) :
  exists rest,
    calls (indexBlockFor fuel this ix v item) =
      CallGetTip (dbName this) (name ix) v (Some no_tip_options) :: rest /\
    forallb reverse_read rest = true /\
    (List.length rest <= S fuel)%nat.
Proof. apply indexBlockFor_calls. Qed.

(** A result, with the store operations that led to it, stays the same
    with more fuel. *)
Lemma run_more_fuel_calls (fuel : nat) :
  forall (c : Cursor X) (r : option (ArchiveIndexBlockOfType X))
         (t : list StoreCall) (extra : nat),
    run fuel this item c = (Ok r, t) ->
    run (extra + fuel) this item c = (Ok r, t).
Proof.
  induction fuel as [| fuel IH]; intros c r t extra; [discriminate|].
  rewrite <- plus_n_Sm. cbn [run].
  destruct (step this item c) as [[[c' | r'] | e | ] t0]; cbn [bind];
    try discriminate; [| trivial].
  destruct (run fuel this item c') as [o t1] eqn:E1.
  intros H. injection H as -> <-.
  now rewrite (IH c' r t1 extra E1).
Qed.

Lemma indexBlockFor_more_fuel_calls (ix : ArchiveIndex X) (v : string)
    (fuel fuel' : nat) (r : option (ArchiveIndexBlockOfType X))
    (t : list StoreCall) :
  indexBlockFor fuel this ix v item = (Ok r, t) ->
  (fuel <= fuel')%nat ->
  indexBlockFor fuel' this ix v item = (Ok r, t).
Proof.
  unfold indexBlockFor. intros H Hle.
  destruct (getTipBlock this ix v reverse_options) as [[[b |] | e | ] t0];
    cbn [bind] in *; try discriminate; [| exact H].
  destruct (run fuel this item (start b)) as [o t1] eqn:E1.
  injection H as -> <-.
  replace fuel' with ((fuel' - fuel) + fuel)%nat by lia.
  now rewrite (run_more_fuel_calls fuel (start b) (fuel' - fuel) E1).
Qed.

End SearchCalls.

Example search_store_access_example :
  calls (indexBlockFor 43 uneven_db uneven_ix "v" 10) =
    [CallGetTip "db" "k" "v" (Some no_tip_options);
     CallGetBlock (Some "T") reverse_options;
     CallGetBlock (Some "B") reverse_options;
     CallGetBlock (Some "C") reverse_options;
     CallGetBlock (Some "D") reverse_options;
     CallGetBlock (Some "E") reverse_options].
Proof. reflexivity. Qed.

(** ** The bounding block on a linked chain *)

Section Bounding.

Variable X : Type.
Variable this : ArchiveDatabase X.
Variable ix : ArchiveIndex X.
Variable v : string.
Variable item : X.
Variable ids : list string.

(** On a linked chain and for any item, stored or not, [indexBlockFor]
    returns with enough fuel a block of the chain such that: it is the tip
    block, or its first item sorts strictly before the item; and it is the
    last block of the chain, or the block linked after it at level 0 holds
    no items or starts with an item that does not sort before the item. *)
Theorem bounding_block (fuel : nat) :
  chain_linked ix ids = true ->
  chain_tip this ix v ids = true ->
  (search_fuel ix ids <= fuel)%nat ->
  exists pre c rest b,
    ids = pre ++ c :: rest /\
    fetch ix c = Some b /\
    outcome (indexBlockFor fuel this ix v item)
      = Ok (Some (index_block this ix v b)) /\
    (pre = [] \/ goes_on this ix item b) /\
    settled this ix item rest.
Proof.
  intros Hl Ht Hfuel.
  destruct (@search_on_chain X this ix v item ids Hl fuel Ht Hfuel)
    as (_ & _ & _ & pre & c & rest & b & _ &
        _ & _ & _ & Hids & Hf & Hrun & Hpre & Hset & _).
  now exists pre, c, rest, b.
Qed.

(** On a linked chain the search performs, whatever the fuel beyond
    [search_fuel], at most [2 + search_fuel] store operations: the tip
    fetch, the tip block, and one block per loop test. *)
Theorem search_fetch_bound (fuel : nat) :
  chain_linked ix ids = true ->
  chain_tip this ix v ids = true ->
  (search_fuel ix ids <= fuel)%nat ->
  (List.length (calls (indexBlockFor fuel this ix v item))
   <= 2 + search_fuel ix ids)%nat.
Proof.
  intros Hl Ht Hfuel.
  destruct (@search_on_chain X this ix v item ids Hl (search_fuel ix ids) Ht
              (Nat.le_refl _))
    as (_ & _ & _ & _ & _ & _ & b & _ &
        _ & _ & _ & _ & _ & Hrun & _).
  destruct (indexBlockFor (search_fuel ix ids) this ix v item)
    as [o t] eqn:E.
  unfold outcome in Hrun. cbn [fst] in Hrun. subst o.
  rewrite (@indexBlockFor_more_fuel_calls X this item ix v
             (search_fuel ix ids) fuel _ t E Hfuel).
  destruct (@indexBlockFor_calls X this item ix v (search_fuel ix ids))
    as (rest & Hc & _ & Hlen).
  rewrite E in Hc. unfold calls in *. cbn [snd] in *. subst t.
  simpl List.length. lia.
Qed.

End Bounding.

Lemma bounding_block_witness :
  exists pre c rest b,
    uneven_ids = pre ++ c :: rest /\
    fetch uneven_ix c = Some b /\
    outcome (indexBlockFor 43 uneven_db uneven_ix "v" 4)
      = Ok (Some (index_block uneven_db uneven_ix "v" b)) /\
    (pre = [] \/ goes_on uneven_db uneven_ix 4 b) /\
    settled uneven_db uneven_ix 4 rest.
Proof.
  apply (@bounding_block Z uneven_db uneven_ix "v" 4 uneven_ids 43%nat);
    [reflexivity | reflexivity | vm_compute; lia].
Defined.

Lemma search_fetch_bound_witness :
  (List.length (calls (indexBlockFor 100 uneven_db uneven_ix "v" 10%Z))
   <= 2 + search_fuel uneven_ix uneven_ids)%nat.
Proof.
  apply (@search_fetch_bound Z uneven_db uneven_ix "v" 10 uneven_ids 100%nat);
    [reflexivity | reflexivity | vm_compute; lia].
Defined.

(** ** A chain that loops *)

Section Cycle.

Variable X : Type.
Variable this : ArchiveDatabase X.
Variable ix : ArchiveIndex X.
Variable v : string.
Variable item : X.

(** The search relies on the pointers leading away from the tip: on a tip
    block whose only pointer names the block itself and whose first item
    sorts before the item, the loops never end, whatever the fuel. *)
Theorem search_loops_on_cycle (stored : ArchiveBlock X) (p : string)
    (first : X) (others : list X) :
  outcome (getTipBlock this ix v reverse_options)
    = Ok (Some (index_block this ix v stored)) ->
  nextBlocks (header stored) = [p] ->
  truthy p = true ->
  getBlock (blockDatabase ix) (Some p) reverse_options = Some stored ->
  normalize this ix (data stored) = first :: others ->
  sorter ix first item < 0 ->
  forall fuel, outcome (indexBlockFor fuel this ix v item) = OutOfFuel.
Proof.
  intros Ht Hn Htp Hg Hd Hlt.
  set (b := index_block this ix v stored).
  set (cw := {| block := b; i := 0; ascending := true; pc := AtWhile |}).
  assert (Hstep : outcome (step this item cw) = Ok (Continue cw)).
  { unfold step, compare_next, cw, b.
    cbn [block i ascending pc ib_header nextBlocksFirstKey index indexValue
         index_block].
    rewrite Hn. change (js_index [p] 0) with (Some p). cbv beta iota.
    rewrite Htp.
    rewrite outcome_bind, getNextBlock_outcome.
    cbn [ib_header index indexValue index_block]. rewrite Hn.
    change (js_length [p] <? 1) with false.
    cbv beta iota. change (js_index [p] 0) with (Some p). rewrite Hg.
    cbn [option_map ib_data index_block]. rewrite Hd.
    replace (sorter ix first item >=? 0) with false
      by (symmetry; rewrite Z.geb_leb; apply Z.leb_gt; lia).
    unfold proceed.
    cbn [block i ascending pc ib_header index_block].
    rewrite Hn. change (js_length [p] - 1) with 0.
    change (true && (0 <? 0)) with false. cbv iota.
    rewrite bind_ret. cbn [outcome ret fst ib_header index_block].
    rewrite Hn. reflexivity. }
  assert (Hloop : forall fuel, outcome (run fuel this item cw) = OutOfFuel).
  { induction fuel as [| fuel IH]; [reflexivity|].
    cbn [run]. rewrite outcome_bind, Hstep. exact IH. }
  intros fuel. unfold indexBlockFor. rewrite outcome_bind, Ht.
  destruct fuel as [| fuel]; [reflexivity|].
  assert (H0 : outcome (step this item
                          (start (index_block this ix v stored)))
               = Ok (Continue cw)).
  { unfold step, start, cw, b.
    cbn [block i ascending pc ib_header index_block]. rewrite Hn.
    reflexivity. }
  cbn [run]. rewrite outcome_bind, H0. apply Hloop.
Qed.

End Cycle.

Lemma search_loops_on_cycle_witness :
  outcome (indexBlockFor 1000 loop_db loop_ix "v" 5) = OutOfFuel.
Proof.
  assert (H : forall fuel,
             outcome (indexBlockFor fuel loop_db loop_ix "v" 5) = OutOfFuel).
  { apply (@search_loops_on_cycle Z loop_db loop_ix "v" 5
             (mk_block "self" ["self"] [1]) "self" 1 []);
      reflexivity. }
  exact (H 1000%nat).
Defined.

(** ** The point lookup *)

Lemma js_index_in_range (A : Type) (a : list A) (k : Z) :
  0 <= k < js_length a -> exists x, js_index a k = Some x.
Proof.
  unfold js_index, js_length. intros H.
  replace (k <? 0) with false by (symmetry; apply Z.ltb_ge; lia).
  destruct (nth_error a (Z.to_nat k)) as [x |] eqn:E; [now exists x|].
  apply nth_error_None in E. lia.
Qed.

Lemma in_js_index (A : Type) (a : list A) (x : A) :
  In x a -> exists k, 0 <= k < js_length a /\ js_index a k = Some x.
Proof.
  intros H. apply In_nth_error in H. destruct H as [n Hn].
  exists (Z.of_nat n).
  assert (n < List.length a)%nat by (apply nth_error_Some; congruence).
  unfold js_index, js_length.
  replace (Z.of_nat n <? 0) with false by (symmetry; apply Z.ltb_ge; lia).
  rewrite Nat2Z.id. split; [lia | exact Hn].
Qed.

Section Lookup.

Variable X : Type.
Variable cmp : X -> X -> Z.

Lemma ascending_nth (l : list X) :
  ascending_order cmp l ->
  forall (a b : nat) (u w : X),
    (a < b)%nat -> nth_error l a = Some u -> nth_error l b = Some w ->
    cmp u w <= 0.
Proof.
  unfold ascending_order.
  induction 1 as [| x l Hs IH Hx]; intros a b u w Hab Ha Hb.
  - destruct a; discriminate.
  - destruct b as [| b]; [lia|]. simpl in Hb. destruct a as [| a].
    + injection Ha as <-. rewrite Forall_forall in Hx.
      apply Hx. now apply nth_error_In with b.
    + simpl in Ha. apply (IH a b); [lia | assumption | assumption].
Qed.

Lemma ascending_js_index (l : list X) (a b : Z) (u w : X) :
  ascending_order cmp l ->
  a < b -> js_index l a = Some u -> js_index l b = Some w ->
  cmp u w <= 0.
Proof.
  intros Hs Hab Ha Hb.
  apply js_index_some_range in Ha as Hra.
  apply js_index_some_range in Hb as Hrb.
  unfold js_index in Ha, Hb.
  replace (a <? 0) with false in Ha by (symmetry; apply Z.ltb_ge; lia).
  replace (b <? 0) with false in Hb by (symmetry; apply Z.ltb_ge; lia).
  apply (ascending_nth Hs (a := Z.to_nat a) (b := Z.to_nat b));
    [lia | assumption | assumption].
Qed.

(** The binary search finds an equal item of an ascending list when there
    is one between its bounds. *)
Lemma sorted_search_complete (l : list X) (x : X) :
  consistent cmp -> sign_symmetric cmp -> ascending_order cmp l ->
  forall (fuel : nat) (btm top : Z),
    0 <= btm -> top < js_length l -> top - btm < Z.of_nat fuel ->
    (exists k y, btm <= k <= top /\ js_index l k = Some y /\ cmp y x = 0) ->
    0 <= sorted_search fuel cmp l x btm top.
Proof.
  intros [Htot Htrans] Hsym Hs.
  induction fuel as [| fuel IH]; intros btm top Hb Ht Hf (k & y & Hk & Hy & E).
  - simpl in Hf. lia.
  - cbn [sorted_search].
    replace (top <? btm) with false by (symmetry; apply Z.ltb_ge; lia).
    assert (Hmid : btm <= (top + btm) / 2 <= top).
    { split; [apply Z.div_le_lower_bound | apply Z.div_le_upper_bound]; lia. }
    destruct (@js_index_in_range _ l ((top + btm) / 2)) as [ym Hym]; [lia|].
    rewrite Hym. cbv zeta.
    destruct (cmp ym x =? 0) eqn:E0; [lia|].
    apply Z.eqb_neq in E0.
    destruct (cmp ym x >? 0) eqn:Eg.
    + apply Z.gtb_lt in Eg. apply IH; try lia.
      exists k, y. split; [| auto].
      destruct (Z_lt_le_dec k ((top + btm) / 2)) as [Hlt | Hge]; [lia|].
      exfalso.
      destruct (Z.eq_dec k ((top + btm) / 2)) as [-> | Hne].
      * rewrite Hym in Hy. injection Hy as ->. lia.
      * assert (cmp ym y <= 0)
          by (apply (@ascending_js_index l ((top + btm) / 2) k); auto; lia).
        assert (cmp ym x <= 0) by (apply Htrans with y; lia).
        lia.
    + rewrite Z.gtb_ltb in Eg. apply Z.ltb_ge in Eg. apply IH; try lia.
      exists k, y. split; [| auto].
      destruct (Z_lt_le_dec ((top + btm) / 2) k) as [Hlt | Hge]; [lia|].
      exfalso.
      destruct (Z.eq_dec k ((top + btm) / 2)) as [-> | Hne].
      * rewrite Hym in Hy. injection Hy as ->. lia.
      * assert (cmp y ym <= 0)
          by (apply (@ascending_js_index l k ((top + btm) / 2)); auto; lia).
        assert (cmp x y = 0) by now apply Hsym.
        assert (cmp x ym <= 0) by (apply Htrans with y; lia).
        assert (0 < cmp x ym) by (apply Hsym; lia).
        lia.
Qed.

Lemma sorted_eq_complete (l : list X) (x y : X) :
  consistent cmp -> sign_symmetric cmp -> ascending_order cmp l ->
  In y l -> cmp y x = 0 ->
  exists y', js_index l (sorted_eq l x cmp) = Some y' /\ cmp y' x = 0 /\
             0 <= sorted_eq l x cmp.
Proof.
  intros Hc Hsym Hs Hin E. unfold sorted_eq.
  destruct (in_js_index _ _ Hin) as (k & Hk & Hy).
  assert (H0 : 0 <= sorted_search (S (List.length l)) cmp l x 0
                      (js_length l - 1)).
  { apply sorted_search_complete; try assumption; try lia.
    - unfold js_length. lia.
    - exists k, y. split; [lia | auto]. }
  destruct (sorted_search_found cmp l x (S (List.length l)) 0
              (js_length l - 1)) as [Hm | (y' & Hy' & E')]; [lia|].
  exists y'. auto.
Qed.

End Lookup.

Section PointLookup.

Variable X : Type.
Variable this : ArchiveDatabase X.
Variable ix : ArchiveIndex X.
Variable v : string.
Variable item : X.

Lemma indexBlockFor_view (fuel : nat) (b : ArchiveIndexBlockOfType X) :
  outcome (indexBlockFor fuel this ix v item) = Ok (Some b) ->
  exists p stored,
    truthy p = true /\
    getBlock (blockDatabase ix) (Some p) reverse_options = Some stored /\
    b = index_block this ix v stored.
Proof.
  unfold indexBlockFor. rewrite outcome_bind, getTipBlock_outcome.
  destruct (getTip _ _ _ _ _) as [t |]; [| discriminate].
  destruct (truthy (blockId t)) eqn:Etr; [| discriminate].
  destruct (getBlock _ _ _) as [stored |] eqn:Eg; [| discriminate].
  cbn [option_map]. intros H.
  destruct (@run_settles X this ix v item fuel
              (start (index_block this ix v stored)))
    as [Ho | (p & st & Htp & Hg & Hr)].
  - now exists (blockId t), stored.
  - rewrite Ho in H. discriminate.
  - rewrite Hr in H. injection H as <-. now exists p, st.
Qed.

(** An item returned by [indexItem] is an item of the block
    [indexBlockFor] returns on the same arguments, and it compares equal
    to the queried item; [indexItem] never returns anything else. *)
Theorem indexItem_sound (fuel : nat) (y : X) :
  outcome (indexItem fuel this ix v item) = Ok (Some y) ->
  exists b,
    outcome (indexBlockFor fuel this ix v item) = Ok (Some b) /\
    In y (ib_data b) /\
    sorter ix y item = 0.
Proof.
  unfold indexItem. rewrite outcome_bind.
  destruct (outcome (indexBlockFor fuel this ix v item))
    as [[b |] | |] eqn:Eb; try discriminate.
  destruct (indexBlockFor_view fuel Eb) as (p & stored & _ & _ & ->).
  cbn [outcome ret fst index index_block]. unfold sorted_eq.
  destruct (sorted_search_found (sorter ix)
              (ib_data (index_block this ix v stored)) item
              (S (List.length (ib_data (index_block this ix v stored))))
              0 (js_length (ib_data (index_block this ix v stored)) - 1))
    as [-> | (y' & Hy' & E')]; [discriminate|].
  destruct (_ <? 0); [discriminate|].
  rewrite Hy'. intros H. injection H as <-.
  exists (index_block this ix v stored).
  split; [reflexivity|]. split; [| exact E'].
  now apply js_index_some_in in Hy'.
Qed.

(** When the block [indexBlockFor] returns holds an item that compares
    equal to the queried item, [indexItem] returns such an item of that
    block: under a consistent, sign-symmetric comparator, the items being
    sorted by the navigator or, with [strictOrdering], stored in ascending
    order. *)
Theorem indexItem_finds_equal_item (fuel : nat)
    (b : ArchiveIndexBlockOfType X) :
  outcome (indexBlockFor fuel this ix v item) = Ok (Some b) ->
  consistent (sorter ix) ->
  sign_symmetric (sorter ix) ->
  (strict this = true -> ascending_order (sorter ix) (ib_data b)) ->
  (exists y, In y (ib_data b) /\ sorter ix y item = 0) ->
  exists y',
    outcome (indexItem fuel this ix v item) = Ok (Some y') /\
    In y' (ib_data b) /\
    sorter ix y' item = 0.
Proof.
  intros Eb Hc Hsym Hstrict (y & Hin & E).
  destruct (indexBlockFor_view fuel Eb) as (p & stored & _ & _ & ->).
  assert (Hs : ascending_order (sorter ix)
                 (ib_data (index_block this ix v stored))).
  { destruct (strict this) eqn:Es; [now apply Hstrict|].
    cbn [ib_data index_block]. unfold normalize. rewrite Es.
    now apply js_sort_sorted. }
  destruct (@sorted_eq_complete X (sorter ix) _ item y Hc Hsym Hs Hin E)
    as (y' & Hy' & E' & Hpos).
  exists y'. unfold indexItem. rewrite outcome_bind, Eb.
  cbn [outcome ret fst index index_block] in *.
  replace (_ <? 0) with false by (symmetry; apply Z.ltb_ge; exact Hpos).
  split; [now rewrite Hy'|]. split; [| exact E'].
  now apply js_index_some_in in Hy'.
Qed.

End PointLookup.

Lemma indexItem_sound_witness :
  exists b,
    outcome (indexBlockFor 13 two_db two_ix "v" 5) = Ok (Some b) /\
    In 5 (ib_data b) /\
    sorter two_ix 5 5 = 0.
Proof.
  apply (@indexItem_sound Z two_db two_ix "v" 5 13%nat 5). reflexivity.
Defined.

Lemma indexItem_finds_equal_item_witness :
  exists y',
    outcome (indexItem 43 uneven_db uneven_ix "v" 6) = Ok (Some y') /\
    In y' (ib_data (index_block uneven_db uneven_ix "v"
                      (mk_block "E" [] [5; 6]))) /\
    sorter uneven_ix y' 6 = 0.
Proof.
  apply (@indexItem_finds_equal_item Z uneven_db uneven_ix "v" 6 43%nat
           (index_block uneven_db uneven_ix "v" (mk_block "E" [] [5; 6]))).
  - reflexivity.
  - exact sub_consistent.
  - exact sub_sign_symmetric.
  - discriminate.
  - exists 6. split; [simpl; auto | reflexivity].
Defined.

(** ** Normalization *)

Section Normalization.

Variable X : Type.
Variable this : ArchiveDatabase X.
Variable ix : ArchiveIndex X.

Lemma js_sort_ascending (l : list X) :
  ascending_order (sorter ix) l -> js_sort (sorter ix) l = l.
Proof.
  unfold ascending_order.
  induction 1 as [| x l Hs IH Hx]; [reflexivity|].
  cbn [js_sort]. rewrite IH.
  destruct l as [| y l']; [reflexivity|].
  cbn [sort_insert]. rewrite Forall_forall in Hx.
  replace (sorter ix x y <=? 0) with true
    by (symmetry; apply Z.leb_le, Hx; now left).
  reflexivity.
Qed.

(** Under a comparator that is consistent in the sense of the language
    ([consistent] and [sign_symmetric]), items stored in ascending order
    are handed out as stored whether or not the configuration declares
    them pre-sorted, and normalizing what the navigator handed out changes
    nothing. *)
Theorem normalize_settles (d : list X) :
  consistent (sorter ix) ->
  sign_symmetric (sorter ix) ->
  (ascending_order (sorter ix) d -> normalize this ix d = d) /\
  (strict this = false ->
   normalize this ix (normalize this ix d) = normalize this ix d).
Proof.
  intros Hc _. split.
  - intros Hs. unfold normalize. destruct (strict this); [reflexivity|].
    now apply js_sort_ascending.
  - intros Es. unfold normalize. rewrite Es.
    apply js_sort_ascending. now apply js_sort_sorted.
Qed.

End Normalization.

Lemma normalize_settles_witness :
  (ascending_order (sorter asc_ix) [1; 5; 9] ->
   normalize asc_db asc_ix [1; 5; 9] = [1; 5; 9]) /\
  (strict asc_db = false ->
   normalize asc_db asc_ix (normalize asc_db asc_ix [5; 1; 9])
     = normalize asc_db asc_ix [5; 1; 9]).
Proof.
  split.
  - apply (proj1 (@normalize_settles Z asc_db asc_ix [1; 5; 9]
                    sub_consistent sub_sign_symmetric)).
  - apply (proj2 (@normalize_settles Z asc_db asc_ix [5; 1; 9]
                    sub_consistent sub_sign_symmetric)).
Defined.

(** The invariant of the cursor and the shape of the result, at work on
    the uneven chain. *)
Lemma search_cursor_invariant_witness :
  (exists p stored,
     truthy p = true /\
     getBlock (blockDatabase uneven_ix) (Some p) reverse_options
       = Some stored /\
     block (at_while uneven_B 2 true)
       = index_block uneven_db uneven_ix "v" stored) /\
  -2 <= i (at_while uneven_B 2 true)
     <= js_length (nextBlocks (ib_header (block (at_while uneven_B 2 true))))
        - 1 /\
  (pc (at_while uneven_B 2 true) = AtWhile ->
   -1 <= i (at_while uneven_B 2 true)).
Proof.
  apply (@search_cursor_invariant Z uneven_db uneven_ix "v" 10 uneven_T
           (at_while uneven_B 2 true)).
  - reflexivity.
  - do 4 (eapply reaches_step; [reflexivity|]). apply reaches_refl.
Defined.

Lemma search_settles_with_block_witness :
  exists p stored,
    truthy p = true /\
    getBlock (blockDatabase uneven_ix) (Some p) reverse_options
      = Some stored /\
    index_block uneven_db uneven_ix "v" (mk_block "E" [] [5; 6])
      = index_block uneven_db uneven_ix "v" stored.
Proof.
  apply (@search_settles_with_block Z uneven_db uneven_ix "v" 10 43%nat
           (Some (index_block uneven_db uneven_ix "v"
                    (mk_block "E" [] [5; 6])))).
  reflexivity.
Defined.

(** ** A chain of one block *)

Section OneBlock.

Variable X : Type.
Variable this : ArchiveDatabase X.
Variable ix : ArchiveIndex X.
Variable v : string.

(** When the tip block has no next pointers, [indexBlockFor] returns it
    for every item on the first loop test, and fetches nothing beyond
    what [getTipBlock] fetched. *)
Theorem single_block_search (b : ArchiveIndexBlockOfType X) (item : X)
    (fuel : nat) :
  outcome (getTipBlock this ix v reverse_options) = Ok (Some b) ->
  nextBlocks (ib_header b) = [] ->
  indexBlockFor (S fuel) this ix v item =
    (Ok (Some b), calls (getTipBlock this ix v reverse_options)).
Proof.
  unfold indexBlockFor, outcome, calls.
  destruct (getTipBlock this ix v reverse_options) as [o t].
  cbn [fst snd]. intros -> Hn. cbn [bind run].
  unfold step, start. cbn [block i ascending pc]. rewrite Hn.
  cbn. rewrite app_nil_r. reflexivity.
Qed.

End OneBlock.

Lemma single_block_search_witness :
  indexBlockFor 1 one_db one_ix "v" 25 =
    (Ok (Some (index_block one_db one_ix "v"
                 (mk_block "only" [] [10; 20; 30]))),
     calls (getTipBlock one_db one_ix "v" reverse_options)).
Proof.
  apply (@single_block_search Z one_db one_ix "v"
           (index_block one_db one_ix "v" (mk_block "only" [] [10; 20; 30]))
           25 0%nat);
    reflexivity.
Defined.
